(** * Verification of the auction operator loop (operator.ts)

    The operator is an asynchronous TypeScript program: every
    [await contract.f(...)] is a suspension point at which the external
    contract answers or rejects.  The embedding keeps that shape:

    - [async A] is the tree of an async function body: it returns, throws,
      writes a console line, or awaits one external call and continues with
      the settled result;
    - [run] executes such a tree against an arbitrary external world
      (a state type and a handler answering every call), recording the
      calls in the order they are issued;
    - [Process] is the event loop of the script: the eager invocation that
      [main] awaits, the [setInterval] timer, and the invocations the timer
      has started that are suspended at an [await]. *)

From Stdlib Require Import ZArith String Ascii Bool List Lia.
From stdpp Require Import base option list strings gmap.
Import ListNotations.

Local Open Scope string_scope.
Local Open Scope list_scope.
Local Open Scope Z_scope.

(** ** Values exchanged with the contract *)

(** What a rejected promise carries. *)
Record Error := MkError { message : string }.

Inductive result (A : Type) : Type :=
| Ok (a : A)
| Err (e : Error).
Arguments Ok {A} a.
Arguments Err {A} e.

(** [getAuctionState() returns (uint256 currentPrice, bool isActive,
    uint256 timeRemaining)] *)
Record AuctionState := MkAuctionState {
  currentPrice : Z;
  isActive : bool;
  timeRemaining : Z
}.

(** [getWinnerInfo() returns (address winner, uint256 winningBid,
    uint256 winningTokenId)] *)
Record WinnerInfo := MkWinnerInfo {
  winner : string;
  winningBid : Z;
  winningTokenId : Z
}.

(** [getAdminState() returns (bool proofSubmitted, bool claimed, bool ended)] *)
Record AdminState := MkAdminState {
  proofSubmitted : bool;
  claimed : bool;
  ended : bool
}.

(** The transaction response of a state-changing call: the code reads
    [tx.hash] and calls [tx.wait()]. *)
Record Tx := MkTx { hash : string }.

(** ** The ethers helpers the script relies on *)

Module ethers.

(** [ethers.constants.AddressZero] *)
Definition AddressZero : string :=
  "0x0000000000000000000000000000000000000000".

Definition digit (c : ascii) : option Z :=
  let n := Z.of_N (N_of_ascii c) in
  if (48 <=? n) && (n <=? 57) then Some (n - 48) else None.

Fixpoint digits (acc : Z) (s : string) : option Z :=
  match s with
  | EmptyString => Some acc
  | String c s' =>
      match digit c with
      | Some d => digits (10 * acc + d) s'
      | None => None
      end
  end.

(** Splits a decimal literal at its first dot. *)
Fixpoint split_dot (s : string) : string * option string :=
  match s with
  | EmptyString => (EmptyString, None)
  | String c s' =>
      if Ascii.eqb c "."%char then (EmptyString, Some s')
      else let '(w, f) := split_dot s' in (String c w, f)
  end.

(** Drops the zeros a fraction ends with. *)
Fixpoint trim_zeros (s : string) : string :=
  match s with
  | EmptyString => EmptyString
  | String c s' =>
      match trim_zeros s' with
      | EmptyString =>
          if Ascii.eqb c "0"%char then EmptyString
          else String c EmptyString
      | t => String c t
      end
  end.

(** [ethers.utils.parseUnits(value, decimals)] on decimal literals: an
    optional minus sign, then the whole part scaled by [10^decimals] plus
    the fraction, without the zeros it ends with, padded to [decimals]
    digits.  A literal with no digit and no fraction, with a stray
    character or a second dot, or with more fraction digits than
    [decimals], is rejected. *)
Definition parseUnits (value : string) (decimals : nat) : option Z :=
  let '(negative, magnitude) :=
    match value with
    | String "-" rest => (true, rest)
    | _ => (false, value)
    end in
  let '(whole, frac) := split_dot magnitude in
  let f := default EmptyString frac in
  if (String.length whole =? 0)%nat && (String.length f =? 0)%nat then None
  else
    let f' := trim_zeros f in
    if (decimals <? String.length f')%nat then None
    else
      match digits 0 whole, digits 0 f' with
      | Some w, Some d =>
          let wei := w * 10 ^ Z.of_nat decimals
                     + d * 10 ^ Z.of_nat (decimals - String.length f') in
          Some (if negative then - wei else wei)
      | _, _ => None
      end.

Definition hexdigit (c : ascii) : option Z :=
  let n := Z.of_N (N_of_ascii c) in
  if (48 <=? n) && (n <=? 57) then Some (n - 48)
  else if (97 <=? n) && (n <=? 102) then Some (n - 87)
  else if (65 <=? n) && (n <=? 70) then Some (n - 55)
  else None.

Fixpoint hexbytes (s : string) : option (list Z) :=
  match s with
  | EmptyString => Some []
  | String hi (String lo s') =>
      match hexdigit hi, hexdigit lo, hexbytes s' with
      | Some h, Some l, Some bs => Some ((16 * h + l) :: bs)
      | _, _, _ => None
      end
  | String _ EmptyString => None
  end.

(** [ethers.utils.arrayify] on a 0x-prefixed hex string: the bytes a
    [bytes32] argument is encoded from. *)
Definition arrayify (s : string) : option (list Z) :=
  match s with
  | String "0" (String "x" s') => hexbytes s'
  | _ => None
  end.

End ethers.

(** [String.prototype.repeat] *)
Fixpoint repeat_string (s : string) (n : nat) : string :=
  match n with
  | O => EmptyString
  | S n' => (s ++ repeat_string s n')%string
  end.

(** ** Configuration *)

(** [process.env]: a JS object used as a map from names to strings.  The
    script reads it after [dotenv.config()] has run. *)
Abbreviation ProcessEnv := (gmap string string).

Module dotenv.

(** [dotenv.config()]: the entries of the [.env] file ([file], empty when
    there is none) are added to [process.env]; a variable that is already
    set, be it to the empty string, is left as it is. *)
Definition config (file env : ProcessEnv) : ProcessEnv := env ∪ file.

End dotenv.

(** [process.env.NAME || fallback]: an unset or empty variable gives the
    fallback. *)
Definition env_or (env : ProcessEnv) (name fallback : string) : string :=
  match env !! name with
  | Some v => if String.eqb v "" then fallback else v
  | None => fallback
  end.

Definition PROVIDER_WS (env : ProcessEnv) : string :=
  env_or env "PROVIDER_WS" "wss://your.websocket.provider".
Definition PRIVATE_KEY (env : ProcessEnv) : string :=
  env_or env "PRIVATE_KEY" "".
Definition CONTRACT_ADDRESS (env : ProcessEnv) : string :=
  env_or env "CONTRACT_ADDRESS" "".

(** Auction parameters for new auctions. *)
Definition NEW_AUCTION_START_PRICE : Z :=
  default 0 (ethers.parseUnits "100" 18).
Definition NEW_AUCTION_END_PRICE : Z :=
  default 0 (ethers.parseUnits "10" 18).
(** Polling interval in milliseconds. *)
Definition POLL_INTERVAL : Z := 15 * 1000.

(** What the provider, the wallet and the contract object are built from. *)
Record Connection := MkConnection {
  endpoint : string;
  signingKey : string;
  contractAddress : string
}.

Definition connect (env : ProcessEnv) : Connection :=
  {| endpoint := PROVIDER_WS env;
     signingKey := PRIVATE_KEY env;
     contractAddress := CONTRACT_ADDRESS env |}.

(** ** External calls *)

(** The contract functions of the ABI that the operator calls, and
    [tx.wait()]. *)
Inductive Call : Type :=
| getAuctionState
| getWinnerInfo
| getAdminState
| endAuctionNoBids
| startAuction (_startPrice _endPrice : Z)
| submitProof (_tokenId : Z) (_proofHash : string)
| claimPayment (_tokenId : Z)
| wait (tx : Tx).

(** What a call resolves to. *)
Definition Resp (c : Call) : Type :=
  match c with
  | getAuctionState => AuctionState
  | getWinnerInfo => WinnerInfo
  | getAdminState => AdminState
  | endAuctionNoBids | startAuction _ _ | submitProof _ _ | claimPayment _ => Tx
  | wait _ => unit
  end.

(** The four state-changing functions of the ABI. *)
Definition is_command (c : Call) : bool :=
  match c with
  | endAuctionNoBids | startAuction _ _ | submitProof _ _ | claimPayment _ => true
  | _ => false
  end.

(** The three view functions of the ABI. *)
Definition is_read (c : Call) : bool :=
  match c with
  | getAuctionState | getWinnerInfo | getAdminState => true
  | _ => false
  end.

(** ** Console output *)

(** One constructor per [console.log]/[console.error] line of the operator
    functions, carrying the values the template interpolates. *)
Inductive LogLine : Type :=
| LogActive (currentPrice timeRemaining : Z)
    (* Auction is active. Current price: .., Time remaining: .. seconds *)
| LogNotActive            (* Auction is no longer active. *)
| LogNoBids               (* Auction ended with no bids. Calling endAuctionNoBids()... *)
| LogCalled (fn : string) (txHash : string)   (* fn() called. Tx Hash: .. *)
| LogStartingNew          (* Starting new auction... *)
| LogWinner (winner : string)
    (* Auction ended with a winner (..). Checking admin state... *)
| LogProofPending         (* Proof not yet submitted. Submitting proof ... *)
| LogClaiming             (* Proof submitted but payment not claimed. ... *)
| LogSettled              (* Auction is fully settled. Starting new auction... *)
| LogCycleError (error : Error)   (* Error in checkAuctionStatus: .. *)
| LogPolling              (* Starting operator polling loop... *)
| LogListening            (* Operator script is listening for events ... *)
| LogFatal (error : Error).       (* Fatal error in operator script: .. *)

(** ** Async function bodies *)

Inductive async (A : Type) : Type :=
| Return (a : A)
| Throw (e : Error)
| Console (l : LogLine) (k : async A)
| Await (c : Call) (k : result (Resp c) -> async A).
Arguments Return {A} a.
Arguments Throw {A} e.
Arguments Console {A} l k.
Arguments Await {A} c k.

Fixpoint bind {A B} (p : async A) (f : A -> async B) : async B :=
  match p with
  | Return a => f a
  | Throw e => Throw e
  | Console l k => Console l (bind k f)
  | Await c k => Await c (fun r => bind (k r) f)
  end.

(** [try { p } catch (error) { h error }] *)
Fixpoint try_catch {A} (p : async A) (h : Error -> async A) : async A :=
  match p with
  | Return a => Return a
  | Throw e => h e
  | Console l k => Console l (try_catch k h)
  | Await c k => Await c (fun r => try_catch (k r) h)
  end.

(** [await contract.f(...)]: the settled value, or the rejection rethrown. *)
Definition await (c : Call) : async (Resp c) :=
  Await c (fun r => match r with Ok x => Return x | Err e => Throw e end).

Definition console_log (l : LogLine) : async unit := Console l (Return tt).

#[global] Instance async_ret : MRet async := fun A a => Return a.
#[global] Instance async_bind : MBind async := fun A B f p => bind p f.

(** ** The operator function *)

Definition zeroProof : string := ("0x" ++ repeat_string "0" 64)%string.

Definition checkAuctionStatus : async unit :=
  try_catch
    (st ← await getAuctionState;
     if isActive st then
       console_log (LogActive (currentPrice st) (timeRemaining st));;
       Return tt
     else
       console_log LogNotActive;;
       winnerInfo ← await getWinnerInfo;
       let winner := winner winnerInfo in
       let winningTokenId := winningTokenId winnerInfo in
       if String.eqb winner ethers.AddressZero then
         console_log LogNoBids;;
         tx ← await endAuctionNoBids;
         console_log (LogCalled "endAuctionNoBids" (hash tx));;
         await (wait tx);;
         console_log LogStartingNew;;
         tx2 ← await (startAuction NEW_AUCTION_START_PRICE
                                    NEW_AUCTION_END_PRICE);
         console_log (LogCalled "startAuction" (hash tx2));;
         await (wait tx2)
       else
         console_log (LogWinner winner);;
         adminState ← await getAdminState;
         let proofSubmitted := proofSubmitted adminState in
         let claimed := claimed adminState in
         if negb proofSubmitted then
           console_log LogProofPending;;
           tx ← await (submitProof winningTokenId zeroProof);
           console_log (LogCalled "submitProof" (hash tx));;
           await (wait tx)
         else if proofSubmitted && negb claimed then
           console_log LogClaiming;;
           tx ← await (claimPayment winningTokenId);
           console_log (LogCalled "claimPayment" (hash tx));;
           await (wait tx)
         else if proofSubmitted && claimed then
           console_log LogSettled;;
           tx ← await (startAuction NEW_AUCTION_START_PRICE
                                     NEW_AUCTION_END_PRICE);
           console_log (LogCalled "startAuction" (hash tx));;
           await (wait tx)
         else Return tt)
    (fun error => console_log (LogCycleError error)).

(** ** One invocation against an external world *)

(** What is observable of an invocation, in program order. *)
Inductive Event : Type :=
| Called (c : Call) (r : result (Resp c))
| Printed (l : LogLine).

(** The external system: it answers (or rejects) every call and moves on. *)
Definition Handler (World : Type) : Type :=
  forall c : Call, World -> result (Resp c) * World.

Record Run (World A : Type) : Type := MkRun {
  outcome : result A;      (* fulfilled with a value, or rejected *)
  trace : list Event;
  world : World
}.
Arguments MkRun {World A} outcome trace world.
Arguments outcome {World A} r.
Arguments trace {World A} r.
Arguments world {World A} r.

Fixpoint run {World A} (handle : Handler World) (p : async A) (w : World)
  : Run World A :=
  match p with
  | Return a => MkRun (Ok a) [] w
  | Throw e => MkRun (Err e) [] w
  | Console l k =>
      let rest := run handle k w in
      MkRun (outcome rest) (Printed l :: trace rest) (world rest)
  | Await c k =>
      let answer := handle c w in
      let rest := run handle (k (fst answer)) (snd answer) in
      MkRun (outcome rest) (Called c (fst answer) :: trace rest) (world rest)
  end.

Definition call_of (e : Event) : option Call :=
  match e with
  | Called c _ => Some c
  | Printed _ => None
  end.

(** The external calls of a trace, in the order they were issued. *)
Definition calls (t : list Event) : list Call := omap call_of t.

(** The state-transition commands dispatched in a trace. *)
Definition dispatched (t : list Event) : list Call :=
  List.filter is_command (calls t).

Definition printed (t : list Event) : list LogLine :=
  omap (fun e => match e with Printed l => Some l | Called _ _ => None end) t.

(** The error an event carries when it is a rejected call. *)
Definition failure_of (e : Event) : option Error :=
  match e with
  | Called _ (Err e) => Some e
  | _ => None
  end.

(** ** The script as a process: [main], [startPolling] and the timer *)

(** An invocation suspended at an [await]: the call it has issued and what
    it does with the settled result. *)
Inductive Suspended : Type :=
| Susp (c : Call) (k : result (Resp c) -> async unit).

Definition pending (s : Suspended) : Call :=
  match s with Susp c _ => c end.

Inductive Status : Type :=
| Fulfilled
| Rejected (e : Error)
| Pending (s : Suspended).

(** Runs the synchronous stretch of an invocation: up to its next [await],
    or to its end. *)
Fixpoint advance (p : async unit) : list LogLine * Status :=
  match p with
  | Return _ => ([], Fulfilled)
  | Throw e => ([], Rejected e)
  | Console l k => let rest := advance k in (l :: fst rest, snd rest)
  | Await c k => ([], Pending (Susp c k))
  end.

Record Process (World : Type) : Type := MkProcess {
  connection : Connection;       (* provider, wallet and contract *)
  chain : World;                 (* the external system *)
  awaited : option Suspended;    (* the invocation [main] is awaiting *)
  timer : option Z;              (* the [setInterval] period, once set *)
  inflight : list Suspended;     (* invocations the timer has started *)
  started : nat;                 (* invocations of [checkAuctionStatus] so far *)
  issued : list Call;            (* external calls issued so far *)
  console : list LogLine;
  exitCode : option Z            (* [process.exit] *)
}.
Arguments MkProcess {World}.
Arguments connection {World} p.
Arguments chain {World} p.
Arguments awaited {World} p.
Arguments timer {World} p.
Arguments inflight {World} p.
Arguments started {World} p.
Arguments issued {World} p.
Arguments console {World} p.
Arguments exitCode {World} p.

(** What happens to the process: the timer fires, or the external call of
    a suspended invocation settles.  The callback of [setInterval] is the
    async function itself: a tick runs it up to its first [await] and does
    not wait for the promise it returns. *)
Inductive Stimulus : Type :=
| Tick
| SettleMain
| Settle (i : nat).

Section Process.

Context {World : Type} (handle : Handler World).

(** [setInterval(checkAuctionStatus, POLL_INTERVAL)] *)
Definition startPolling (p : Process World) : Process World :=
  MkProcess (connection p) (chain p) (awaited p) (Some POLL_INTERVAL)
    (inflight p) (started p) (issued p) (console p ++ [LogPolling])
    (exitCode p).

(** [main] after [await checkAuctionStatus()] has got as far as [st]:
    still awaiting; fulfilled, so [startPolling()] runs; or rejected, so
    the [catch] of [main()] logs and exits with code 1. *)
Definition continue_main (out : list LogLine) (st : Status)
    (w : World) (p : Process World) : Process World :=
  match st with
  | Pending s =>
      MkProcess (connection p) w (Some s) (timer p) (inflight p)
        (started p) (issued p ++ [pending s]) (console p ++ out) (exitCode p)
  | Fulfilled =>
      startPolling
        (MkProcess (connection p) w None (timer p) (inflight p)
           (started p) (issued p) (console p ++ out) (exitCode p))
  | Rejected e =>
      MkProcess (connection p) w None (timer p) (inflight p)
        (started p) (issued p) (console p ++ out ++ [LogFatal e]) (Some 1)
  end.

(** An invocation started by the timer, whose place among the suspended
    ones is between [before] and [after]: nothing awaits its promise; a
    rejection would be an unhandled one, which ends the process. *)
Definition continue_cycle (out : list LogLine) (st : Status)
    (before after : list Suspended) (w : World) (p : Process World)
    : Process World :=
  match st with
  | Pending s =>
      MkProcess (connection p) w (awaited p) (timer p)
        (before ++ s :: after)
        (started p) (issued p ++ [pending s]) (console p ++ out) (exitCode p)
  | Fulfilled =>
      MkProcess (connection p) w (awaited p) (timer p) (before ++ after)
        (started p) (issued p) (console p ++ out) (exitCode p)
  | Rejected e =>
      MkProcess (connection p) w (awaited p) (timer p) (before ++ after)
        (started p) (issued p) (console p ++ out) (Some 1)
  end.

(** The awaited call of [s] settles and the invocation goes on. *)
Definition resume (s : Suspended) (w : World)
    : list LogLine * Status * World :=
  match s with
  | Susp c k =>
      let answer := handle c w in
      (advance (k (fst answer)), snd answer)
  end.

Definition step (l : Stimulus) (p : Process World)
    : option (Process World) :=
  match exitCode p with
  | Some _ => None
  | None =>
      match l with
      | Tick =>
          match timer p with
          | None => None
          | Some _ =>
              let '(out, st) := advance checkAuctionStatus in
              Some (continue_cycle out st (inflight p) [] (chain p)
                      (MkProcess (connection p) (chain p) (awaited p)
                         (timer p) (inflight p) (S (started p)) (issued p)
                         (console p) (exitCode p)))
          end
      | SettleMain =>
          match awaited p with
          | None => None
          | Some s =>
              let '(out, st, w) := resume s (chain p) in
              Some (continue_main out st w p)
          end
      | Settle i =>
          match inflight p !! i with
          | None => None
          | Some s =>
              let '(out, st, w) := resume s (chain p) in
              Some (continue_cycle out st (take i (inflight p))
                      (drop (S i) (inflight p)) w p)
          end
      end
  end.

Fixpoint exec (ls : list Stimulus) (p : Process World)
    : option (Process World) :=
  match ls with
  | [] => Some p
  | l :: ls' =>
      match step l p with
      | Some p' => exec ls' p'
      | None => None
      end
  end.

(** [main()]: the listeners are set up (they only print), the first
    [checkAuctionStatus()] is started and awaited, and only then
    [startPolling()] is called. *)
Definition main (env : ProcessEnv) (w : World) : Process World :=
  let '(out, st) := advance checkAuctionStatus in
  continue_main out st w
    (MkProcess (connect env) w None None [] 1%nat [] [LogListening] None).

End Process.

(** The state-transition commands that suspended invocations have issued
    and that have not settled yet. *)
Definition commands_in_flight {World} (p : Process World) : list Call :=
  List.filter is_command
    (map pending (option_list (awaited p) ++ inflight p)).

(** ** A mock contract for examples *)

(** Fixed answers to the three reads; the next [rejections] state-changing
    calls are rejected, the later ones accepted. *)
Record Mock := MkMock {
  auction : AuctionState;
  winnerInfo : WinnerInfo;
  adminState : AdminState;
  rejections : nat
}.

Definition rejected (m : Mock) : Mock :=
  MkMock (auction m) (winnerInfo m) (adminState m) (pred (rejections m)).

Definition send (m : Mock) : result Tx * Mock :=
  match rejections m with
  | O => (Ok (MkTx "0xfeed"), m)
  | S _ => (Err (MkError "reverted"), rejected m)
  end.

Definition mock : Handler Mock :=
  fun c m =>
    match c return result (Resp c) * Mock with
    | getAuctionState => (Ok (auction m), m)
    | getWinnerInfo => (Ok (winnerInfo m), m)
    | getAdminState => (Ok (adminState m), m)
    | endAuctionNoBids => send m
    | startAuction _ _ => send m
    | submitProof _ _ => send m
    | claimPayment _ => send m
    | wait _ => (Ok tt, m)
    end.

(** The first example of the specification: price 50, not active, no time
    left, no winner. *)
Definition no_bids (n : nat) : Mock :=
  MkMock (MkAuctionState 50 false 0)
         (MkWinnerInfo ethers.AddressZero 0 0)
         (MkAdminState false false false) n.

(** The second example: winner 0xABC with bid 42 on token 7. *)
Definition won (proof paid : bool) (n : nat) : Mock :=
  MkMock (MkAuctionState 50 false 0)
         (MkWinnerInfo "0x0000000000000000000000000000000000000ABC" 42 7)
         (MkAdminState proof paid true) n.

Definition live : Mock :=
  MkMock (MkAuctionState 50 true 30)
         (MkWinnerInfo ethers.AddressZero 0 0)
         (MkAdminState false false false) 0.



(** A polling process with one invocation still awaiting its snapshot
    read. *)
Definition busy : Process Mock :=
  MkProcess (connect ∅) live None (Some POLL_INTERVAL)
    [Susp getAuctionState (fun _ => Return tt)] 2%nat [getAuctionState] []
    None.

(** The eager invocation runs to its end (six settled calls in the no-bids
    case); then the timer fires twice before any call of the first
    timer-started invocation has settled, and the reads of both settle. *)
Definition two_ticks : list Stimulus :=
  replicate 6 SettleMain
    ++ [Tick; Tick; Settle 0; Settle 1; Settle 0; Settle 1].

(** ** Properties of invocations used as invariants *)

(** No path of the body ends in an uncaught exception. *)
Fixpoint never_throws {A} (p : async A) : Prop :=
  match p with
  | Return _ => True
  | Throw _ => False
  | Console _ k => never_throws k
  | Await c k => forall r, never_throws (k r)
  end.

Definition safe (s : Suspended) : Prop :=
  match s with Susp c k => forall r, never_throws (k r) end.

Definition settled_safely (st : Status) : Prop :=
  match st with
  | Fulfilled => True
  | Rejected _ => False
  | Pending s => safe s
  end.

(** What holds of the process in every state it can reach. *)
Record invariant {World} (p : Process World) : Prop := MkInvariant {
  inv_running : exitCode p = None;
  inv_awaited : forall s, awaited p = Some s -> safe s;
  inv_inflight : Forall safe (inflight p);
  inv_startup : awaited p <> None ->
                timer p = None /\ inflight p = [] /\ started p = 1%nat;
  inv_polling : awaited p = None -> timer p = Some POLL_INTERVAL
}.

(** Two answers to one call that differ at most in the current price, the
    time remaining and the winning bid. *)
Definition same_decision_input (c : Call)
    : result (Resp c) -> result (Resp c) -> Prop :=
  match c return result (Resp c) -> result (Resp c) -> Prop with
  | getAuctionState => fun r1 r2 =>
      match r1, r2 with
      | Ok s1, Ok s2 => isActive s1 = isActive s2
      | Err e1, Err e2 => e1 = e2
      | _, _ => False
      end
  | getWinnerInfo => fun r1 r2 =>
      match r1, r2 with
      | Ok i1, Ok i2 =>
          winner i1 = winner i2 /\ winningTokenId i1 = winningTokenId i2
      | Err e1, Err e2 => e1 = e2
      | _, _ => False
      end
  | getAdminState => fun r1 r2 =>
      match r1, r2 with
      | Ok a1, Ok a2 =>
          proofSubmitted a1 = proofSubmitted a2 /\ claimed a1 = claimed a2
      | Err e1, Err e2 => e1 = e2
      | _, _ => False
      end
  | _ => fun r1 r2 => r1 = r2
  end.


Arguments NEW_AUCTION_START_PRICE : simpl never.
Arguments NEW_AUCTION_END_PRICE : simpl never.
Arguments zeroProof : simpl never.
Arguments ethers.AddressZero : simpl never.
Arguments String.eqb : simpl never.

(** ** Event listeners *)

(** The six events of the ABI as a listener receives them: the decoded
    arguments and [event.transactionHash]. *)
Inductive Notification : Type :=
| AuctionStarted (startPrice endPrice startTime duration : Z)
    (transactionHash : string)
| AuctionEnded (winner : string) (winningBid tokenId : Z)
    (transactionHash : string)
| BidPlaced (bidder : string) (bidAmount tokenId : Z)
    (transactionHash : string)
| ProofSubmitted (tokenId : Z) (proofHash : string)
    (transactionHash : string)
| PaymentClaimed (tokenId amount : Z) (transactionHash : string)
| WinningAdSelected (tokenId : Z) (title content imageURL publisher : string)
    (bidAmount : Z) (transactionHash : string).

(** A value interpolated into a printed line. *)
Inductive Shown : Type :=
| Units (v : Z)          (* ethers.utils.formatUnits(v, 18) *)
| Numeral (v : Z)        (* v.toString(), or a number *)
| Text (s : string)
| LocalTime (seconds : Z).  (* new Date(seconds * 1000).toLocaleString() *)

(** A line a listener prints: the dashed rule with its trailing newlines,
    the [Event: ...] heading, or a labelled value with its suffix. *)
Inductive Printout : Type :=
| Rule (newlines : nat)
| Heading (event : string)
| Field (label : string) (v : Shown) (suffix : string).

(** [setupEventListeners]: the callback registered with [contract.on] for
    each event, run on a notification of that event.  It gives the lines
    printed and the exception thrown, if any.  [toNumber] is
    [BigNumber.toNumber] of ethers, which throws on values that do not fit
    a JavaScript number. *)
Definition setupEventListeners (toNumber : Z -> result Z) (n : Notification)
    : list Printout * option Error :=
  match n with
  | AuctionStarted startPrice endPrice startTime duration transactionHash =>
      let opening :=
        [Rule 1;
         Heading "AuctionStarted";
         Field "  Start Price: " (Units startPrice) "";
         Field "  End Price:   " (Units endPrice) ""] in
      match toNumber startTime with
      | Err e => (opening, Some e)
      | Ok seconds =>
          match toNumber duration with
          | Err e =>
              (opening ++ [Field "  Start Time:  " (LocalTime seconds) ""],
               Some e)
          | Ok d =>
              (opening ++
               [Field "  Start Time:  " (LocalTime seconds) "";
                Field "  Duration:    " (Numeral d) " seconds";
                Field "  Tx Hash:     " (Text transactionHash) "";
                Rule 2],
               None)
          end
      end
  | AuctionEnded winner winningBid tokenId transactionHash =>
      ([Heading "AuctionEnded";
        Field "  Winner:       " (Text winner) "";
        Field "  Winning Bid:  " (Units winningBid) "";
        Field "  Token ID:     " (Numeral tokenId) "";
        Field "  Tx Hash:      " (Text transactionHash) ""],
       None)
  | BidPlaced bidder bidAmount tokenId transactionHash =>
      ([Rule 0;
        Heading "BidPlaced";
        Field "  Bidder:     " (Text bidder) "";
        Field "  Bid Amount USD: " (Units bidAmount) "";
        Field "  Token ID:   " (Numeral tokenId) "";
        Field "  Tx Hash:    " (Text transactionHash) "";
        Rule 0],
       None)
  | ProofSubmitted tokenId proofHash transactionHash =>
      ([Heading "ProofSubmitted";
        Field "  Token ID:  " (Numeral tokenId) "";
        Field "  Proof:     " (Text proofHash) "";
        Field "  Tx Hash:   " (Text transactionHash) ""],
       None)
  | PaymentClaimed tokenId amount transactionHash =>
      ([Rule 1;
        Heading "PaymentClaimed";
        Field "  Token ID: " (Numeral tokenId) "";
        Field "  Amount USD:   " (Units amount) "";
        Field "  Tx Hash:  " (Text transactionHash) "";
        Rule 2],
       None)
  | WinningAdSelected tokenId title content imageURL publisher bidAmount
      transactionHash =>
      ([Rule 0;
        Heading "WinningAdSelected";
        Field "  Token ID:   " (Numeral tokenId) "";
        Field "  Title:      " (Text title) "";
        Field "  Content:    " (Text content) "";
        Field "  Image URL:  " (Text imageURL) "";
        Field "  Publisher:  " (Text publisher) "";
        Field "  Bid Amount: " (Units bidAmount) "";
        Field "  Tx Hash:    " (Text transactionHash) "";
        Rule 2],
       None)
  end.

Definition transactionHash_of (n : Notification) : string :=
  match n with
  | AuctionStarted _ _ _ _ h | AuctionEnded _ _ _ h | BidPlaced _ _ _ h
  | ProofSubmitted _ _ h | PaymentClaimed _ _ h
  | WinningAdSelected _ _ _ _ _ _ h => h
  end.

(** The line that shows a transaction hash. *)
Definition shows_hash (h : string) (l : Printout) : Prop :=
  exists label, l = Field label (Text h) "" /\
                String.prefix "  Tx Hash:" label = true.

(** A conversion that works below 2^53 only, for examples. *)
Definition toNumber53 (v : Z) : result Z :=
  if (Z.abs v <? 2 ^ 53) then Ok v else Err (MkError "overflow").

(** ** Reading a trace *)

(** The name under which the script calls a contract function. *)
Definition function_name (c : Call) : string :=
  match c with
  | getAuctionState => "getAuctionState"
  | getWinnerInfo => "getWinnerInfo"
  | getAdminState => "getAdminState"
  | endAuctionNoBids => "endAuctionNoBids"
  | startAuction _ _ => "startAuction"
  | submitProof _ _ => "submitProof"
  | claimPayment _ => "claimPayment"
  | wait _ => "wait"
  end.

(** The transaction a state-changing call resolved to. *)
Definition receipt_of (e : Event) : option Tx :=
  match e with
  | Called c r =>
      match c return result (Resp c) -> option Tx with
      | endAuctionNoBids =>
          fun r => match r with Ok tx => Some tx | Err _ => None end
      | startAuction _ _ =>
          fun r => match r with Ok tx => Some tx | Err _ => None end
      | submitProof _ _ =>
          fun r => match r with Ok tx => Some tx | Err _ => None end
      | claimPayment _ =>
          fun r => match r with Ok tx => Some tx | Err _ => None end
      | _ => fun _ => None
      end r
  | Printed _ => None
  end.

(** The snapshot a successful [getAuctionState] resolved to. *)
Definition snapshot_of (e : Event) : option AuctionState :=
  match e with
  | Called c r =>
      match c return result (Resp c) -> option AuctionState with
      | getAuctionState =>
          fun r => match r with Ok st => Some st | Err _ => None end
      | _ => fun _ => None
      end r
  | Printed _ => None
  end.

(** The winner a successful [getWinnerInfo] resolved to. *)
Definition winner_of (e : Event) : option WinnerInfo :=
  match e with
  | Called c r =>
      match c return result (Resp c) -> option WinnerInfo with
      | getWinnerInfo =>
          fun r => match r with Ok wi => Some wi | Err _ => None end
      | _ => fun _ => None
      end r
  | Printed _ => None
  end.

(** A view function that was rejected. *)
Definition read_failed (e : Event) : bool :=
  match e with
  | Called c (Err _) => is_read c
  | _ => false
  end.

(** The view functions called in a trace, in order. *)
Definition reads (t : list Event) : list Call :=
  List.filter is_read (calls t).

(** ** Counting external calls *)

(** Every path of the body issues at most [n] external calls. *)
Fixpoint calls_within {A} (n : nat) (p : async A) : Prop :=
  match p with
  | Return _ => True
  | Throw _ => True
  | Console _ k => calls_within n k
  | Await c k =>
      match n with
      | O => False
      | S n' => forall r, calls_within n' (k r)
      end
  end.

(** Once its awaited call has settled, the invocation issues at most [n]
    more calls. *)
Definition budget (s : Suspended) (n : nat) : Prop :=
  match s with Susp c k => forall r, calls_within n (k r) end.

Definition is_tick (l : Stimulus) : bool :=
  match l with Tick => true | _ => false end.

Definition ticks (ls : list Stimulus) : nat :=
  length (List.filter is_tick ls).

(** The invocations that are suspended at an [await]. *)
Definition suspended {World} (p : Process World) : list Suspended :=
  option_list (awaited p) ++ inflight p.

(** At most six calls have been issued or can still be issued per
    invocation started. *)
Definition within_budget {World} (p : Process World) : Prop :=
  exists ns : list nat,
    Forall2 budget (suspended p) ns /\
    (length (issued p) + sum_list ns <= 6 * started p)%nat.

(** ** What the script may send *)

(** A call with the only arguments the script has for it: the default
    prices for [startAuction], the zero proof for [submitProof]. *)
Definition usual (c : Call) : Prop :=
  match c with
  | startAuction s e =>
      s = NEW_AUCTION_START_PRICE /\ e = NEW_AUCTION_END_PRICE
  | submitProof _ h => h = zeroProof
  | _ => True
  end.

(** Every call on every path of the body satisfies [P]. *)
Fixpoint only_issues {A} (P : Call -> Prop) (q : async A) : Prop :=
  match q with
  | Return _ => True
  | Throw _ => True
  | Console _ k => only_issues P k
  | Await c k => P c /\ forall r, only_issues P (k r)
  end.

Definition goes_on_with (P : Call -> Prop) (s : Suspended) : Prop :=
  match s with Susp c k => forall r, only_issues P (k r) end.

(** The call issued at a suspension, if the invocation is suspended. *)
Definition issued_at (st : Status) : list Call :=
  match st with
  | Pending s => [pending s]
  | _ => []
  end.

(** All the process has issued, and all its suspended invocations will
    issue, satisfies [P]. *)
Definition sends_only {World} (P : Call -> Prop) (p : Process World) : Prop :=
  Forall P (issued p) /\ Forall (goes_on_with P) (suspended p).

(** The two cycles get answers to their reads that agree on what the
    decision reads: [isActive], the winner and its token, [proofSubmitted]
    and [claimed]. *)
Definition same_reads {W1 W2} (h1 : Handler W1) (h2 : Handler W2)
    (w1 : W1) (w2 : W2) : Prop :=
  let a1 := h1 getAuctionState w1 in
  let a2 := h2 getAuctionState w2 in
  let b1 := h1 getWinnerInfo (snd a1) in
  let b2 := h2 getWinnerInfo (snd a2) in
  let c1 := h1 getAdminState (snd b1) in
  let c2 := h2 getAdminState (snd b2) in
  same_decision_input getAuctionState (fst a1) (fst a2) /\
  same_decision_input getWinnerInfo (fst b1) (fst b2) /\
  same_decision_input getAdminState (fst c1) (fst c2).

(** ** Proof automation *)

(** Case analysis on the answer to the next external call. *)
Ltac settle handle :=
  match goal with
  | |- context [handle ?c ?w] =>
      let a := fresh "a" in
      let w' := fresh "w" in
      destruct (handle c w) as [[a|a] w'] eqn:?; cbn
  end.

(** Case analysis on the next branch of [checkAuctionStatus]. *)
Ltac branch :=
  match goal with
  | |- context [if isActive ?s then _ else _] =>
      destruct (isActive s) eqn:?; cbn
  | |- context [if (?a =? ?b)%string then _ else _] =>
      destruct (a =? b)%string eqn:?; cbn
  | |- context [proofSubmitted ?a] =>
      destruct (proofSubmitted a) eqn:?; cbn
  | |- context [claimed ?a] =>
      destruct (claimed a) eqn:?; cbn
  end.


Ltac explore handle :=
  unfold checkAuctionStatus; cbn; repeat first [settle handle | branch].

(** ** Constants *)

Lemma parseUnits_start : ethers.parseUnits "100" 18 = Some (100 * 10 ^ 18).
Proof. reflexivity. Qed.

Lemma parseUnits_end : ethers.parseUnits "10" 18 = Some (10 * 10 ^ 18).
Proof. reflexivity. Qed.

Lemma start_price : NEW_AUCTION_START_PRICE = 100 * 10 ^ 18.
Proof. reflexivity. Qed.

Lemma end_price : NEW_AUCTION_END_PRICE = 10 * 10 ^ 18.
Proof. reflexivity. Qed.

Lemma poll_interval_ms : POLL_INTERVAL = 15000.
Proof. reflexivity. Qed.

(** The placeholder proof is the 32-byte zero value. *)
Lemma zeroProof_bytes : ethers.arrayify zeroProof = Some (replicate 32 0).
Proof. reflexivity. Qed.

Lemma zeroProof_length : String.length zeroProof = 66%nat.
Proof. reflexivity. Qed.

(** ** Splitting a trace at an event *)

Lemma split_nil {A} (pre post : list A) (x : A) : [] = pre ++ x :: post -> False.
Proof. destruct pre; discriminate. Qed.

Lemma split_cons {A} (y : A) (l pre post : list A) (x : A) :
  y :: l = pre ++ x :: post ->
  (pre = [] /\ y = x /\ l = post) \/
  (exists pre', pre = y :: pre' /\ l = pre' ++ x :: post).
Proof.
  destruct pre as [|z pre]; cbn; intros H; injection H as -> ->; eauto.
Qed.

(** Walks [H : concrete trace = pre ++ x :: post] through every position
    [x] can have. *)
Ltac positions H :=
  first
    [ apply split_nil in H; contradiction
    | let H' := fresh "H" in
      apply split_cons in H as [(-> & H' & <-) | (? & -> & H)];
      [ | positions H ] ].

(** ** Active auctions *)

(** C1. Whenever the snapshot read answers [isActive = true], the cycle
    issues no state-transition command at all: its only external call is
    the snapshot read, it prints the price and the time remaining, and it
    returns normally. *)
Theorem active_dispatches_nothing
    {World} (handle : Handler World) (w w1 : World) (st : AuctionState) :
  handle getAuctionState w = (Ok st, w1) ->
  isActive st = true ->
  let r := run handle checkAuctionStatus w in
  dispatched (trace r) = [] /\
  trace r = [Called getAuctionState (Ok st);
             Printed (LogActive (currentPrice st) (timeRemaining st))] /\
  outcome r = Ok tt /\
  world r = w1.
Proof.
  intros Hst Hact. unfold checkAuctionStatus. cbn.
  rewrite Hst. cbn. rewrite Hact. cbn. done.
Qed.

Lemma active_dispatches_nothing_witness :
  dispatched (trace (run mock checkAuctionStatus live)) = [].
Proof.
  apply (active_dispatches_nothing mock live live (auction live));
    reflexivity.
Defined.

(** ** Ended auctions without a winner *)

Lemma eqb_sentinel (a : string) :
  a = ethers.AddressZero -> (a =? ethers.AddressZero)%string = true.
Proof. intros ->. apply String.eqb_refl. Qed.

Lemma eqb_real_winner (a : string) :
  a <> ethers.AddressZero -> (a =? ethers.AddressZero)%string = false.
Proof. apply String.eqb_neq. Qed.

(** C2, as the code has it. When the snapshot is not active and the winner
    is the zero address, the cycle dispatches [endAuctionNoBids] first; once
    that transaction has been sent and confirmed it dispatches
    [startAuction] with the default prices (100 and 10 in 18-decimal
    units), and it waits for that one as well when it was sent; nothing
    else is dispatched.  When [endAuctionNoBids] is rejected, or its
    confirmation fails, the cycle stops there and [startAuction] is not
    dispatched. *)
Theorem no_bids_close_then_reopen
    {World} (handle : Handler World) (w w1 w2 : World)
    (st : AuctionState) (wi : WinnerInfo) :
  handle getAuctionState w = (Ok st, w1) ->
  isActive st = false ->
  handle getWinnerInfo w1 = (Ok wi, w2) ->
  winner wi = ethers.AddressZero ->
  let r := run handle checkAuctionStatus w in
  let reopen := startAuction (100 * 10 ^ 18) (10 * 10 ^ 18) in
  (forall tx w3 w4,
      handle endAuctionNoBids w2 = (Ok tx, w3) ->
      handle (wait tx) w3 = (Ok tt, w4) ->
      dispatched (trace r) = [endAuctionNoBids; reopen] /\
      calls (trace r) =
        [getAuctionState; getWinnerInfo; endAuctionNoBids; wait tx; reopen]
        ++ match fst (handle reopen w4) with
           | Ok tx2 => [wait tx2]
           | Err _ => []
           end) /\
  (forall e w3,
      handle endAuctionNoBids w2 = (Err e, w3) ->
      dispatched (trace r) = [endAuctionNoBids] /\
      calls (trace r) = [getAuctionState; getWinnerInfo; endAuctionNoBids]) /\
  (forall tx e w3 w4,
      handle endAuctionNoBids w2 = (Ok tx, w3) ->
      handle (wait tx) w3 = (Err e, w4) ->
      dispatched (trace r) = [endAuctionNoBids] /\
      calls (trace r) =
        [getAuctionState; getWinnerInfo; endAuctionNoBids; wait tx]).
Proof.
  intros Hst Hact Hwi Hzero. apply eqb_sentinel in Hzero.
  rewrite <- start_price, <- end_price.
  unfold checkAuctionStatus. cbn.
  rewrite Hst. cbn. rewrite Hact. cbn.
  rewrite Hwi. cbn. rewrite Hzero. cbn.
  repeat split.
  - rewrite H. cbn. rewrite H0. cbn.
    destruct (handle _ w4) as [[tx2|e] w5]; cbn; [|reflexivity].
    destruct (handle (wait tx2) w5) as [[[]|e] w6]; reflexivity.
  - rewrite H. cbn. rewrite H0. cbn.
    destruct (handle _ w4) as [[tx2|e] w5]; cbn; [|reflexivity].
    destruct (handle (wait tx2) w5) as [[[]|e] w6]; reflexivity.
  - rewrite H. reflexivity.
  - rewrite H. reflexivity.
  - rewrite H. cbn. rewrite H0. reflexivity.
  - rewrite H. cbn. rewrite H0. reflexivity.
Qed.

Lemma no_bids_close_then_reopen_witness :
  dispatched (trace (run mock checkAuctionStatus (no_bids 0)))
  = [endAuctionNoBids; startAuction (100 * 10 ^ 18) (10 * 10 ^ 18)].
Proof.
  destruct (no_bids_close_then_reopen mock (no_bids 0) (no_bids 0) (no_bids 0)
              (auction (no_bids 0)) (winnerInfo (no_bids 0))
              eq_refl eq_refl eq_refl eq_refl) as [H _].
  apply (H (MkTx "0xfeed") (no_bids 0) (no_bids 0)); reflexivity.
Defined.

(** When the first dispatch is rejected: the reads are those of the
    no-bids case, and only [endAuctionNoBids] is dispatched. *)
Lemma no_bids_rejected_close :
  fst (mock getAuctionState (no_bids 1)) = Ok (MkAuctionState 50 false 0) /\
  fst (mock getWinnerInfo (no_bids 1))
    = Ok (MkWinnerInfo ethers.AddressZero 0 0) /\
  dispatched (trace (run mock checkAuctionStatus (no_bids 1)))
    = [endAuctionNoBids] /\
  dispatched (trace (run mock checkAuctionStatus (no_bids 1)))
    <> [endAuctionNoBids; startAuction (100 * 10 ^ 18) (10 * 10 ^ 18)].
Proof. repeat split. discriminate. Qed.

(** ** Ended auctions with a winner *)

(** C3. When the snapshot is not active, the winner is not the zero address
    and the settlement read answers [proofSubmitted = false] (whatever
    [claimed] is), the cycle dispatches exactly one command:
    [submitProof] with the token id of this cycle's winner read and the
    32-byte zero value as proof hash. *)
Theorem proof_pending_submits_proof
    {World} (handle : Handler World) (w w1 w2 w3 : World)
    (st : AuctionState) (wi : WinnerInfo) (ad : AdminState) :
  handle getAuctionState w = (Ok st, w1) ->
  isActive st = false ->
  handle getWinnerInfo w1 = (Ok wi, w2) ->
  winner wi <> ethers.AddressZero ->
  handle getAdminState w2 = (Ok ad, w3) ->
  proofSubmitted ad = false ->
  let r := run handle checkAuctionStatus w in
  dispatched (trace r) = [submitProof (winningTokenId wi) zeroProof] /\
  ethers.arrayify zeroProof = Some (replicate 32 0).
Proof.
  intros Hst Hact Hwi Hreal Had Hproof. apply eqb_real_winner in Hreal.
  split; [|apply zeroProof_bytes].
  unfold checkAuctionStatus. cbn.
  rewrite Hst. cbn. rewrite Hact. cbn.
  rewrite Hwi. cbn. rewrite Hreal. cbn.
  rewrite Had. cbn. rewrite Hproof. cbn.
  destruct (handle _ w3) as [[tx|e] w4]; cbn; [|reflexivity].
  destruct (handle (wait tx) w4) as [[[]|e] w5]; reflexivity.
Qed.

Lemma proof_pending_submits_proof_witness :
  dispatched (trace (run mock checkAuctionStatus (won false false 0)))
  = [submitProof 7 zeroProof].
Proof.
  apply (proof_pending_submits_proof mock (won false false 0)
           (won false false 0) (won false false 0) (won false false 0)
           (auction (won false false 0)) (winnerInfo (won false false 0))
           (adminState (won false false 0)));
    first [reflexivity | discriminate].
Defined.

(** C4. When the snapshot is not active, the winner is not the zero address
    and [proofSubmitted = true], the cycle dispatches exactly one command:
    [claimPayment] with the winning token id when [claimed = false], and
    [startAuction] with the default prices when [claimed = true]. *)
Theorem proof_submitted_claims_or_reopens
    {World} (handle : Handler World) (w w1 w2 w3 : World)
    (st : AuctionState) (wi : WinnerInfo) (ad : AdminState) :
  handle getAuctionState w = (Ok st, w1) ->
  isActive st = false ->
  handle getWinnerInfo w1 = (Ok wi, w2) ->
  winner wi <> ethers.AddressZero ->
  handle getAdminState w2 = (Ok ad, w3) ->
  proofSubmitted ad = true ->
  let r := run handle checkAuctionStatus w in
  dispatched (trace r) =
    [if claimed ad then startAuction (100 * 10 ^ 18) (10 * 10 ^ 18)
     else claimPayment (winningTokenId wi)].
Proof.
  intros Hst Hact Hwi Hreal Had Hproof. apply eqb_real_winner in Hreal.
  rewrite <- start_price, <- end_price.
  unfold checkAuctionStatus. cbn.
  rewrite Hst. cbn. rewrite Hact. cbn.
  rewrite Hwi. cbn. rewrite Hreal. cbn.
  rewrite Had. cbn. rewrite Hproof. cbn.
  destruct (claimed ad); cbn.
  - destruct (handle _ w3) as [[tx|e] w4]; cbn; [|reflexivity].
    destruct (handle (wait tx) w4) as [[[]|e] w5]; reflexivity.
  - destruct (handle _ w3) as [[tx|e] w4]; cbn; [|reflexivity].
    destruct (handle (wait tx) w4) as [[[]|e] w5]; reflexivity.
Qed.

Lemma proof_submitted_claims_or_reopens_witness :
  dispatched (trace (run mock checkAuctionStatus (won true false 0)))
    = [claimPayment 7] /\
  dispatched (trace (run mock checkAuctionStatus (won true true 0)))
    = [startAuction (100 * 10 ^ 18) (10 * 10 ^ 18)].
Proof.
  split.
  - apply (proof_submitted_claims_or_reopens mock (won true false 0)
             (won true false 0) (won true false 0) (won true false 0)
             (auction (won true false 0)) (winnerInfo (won true false 0))
             (adminState (won true false 0)));
      first [reflexivity | discriminate].
  - apply (proof_submitted_claims_or_reopens mock (won true true 0)
             (won true true 0) (won true true 0) (won true true 0)
             (auction (won true true 0)) (winnerInfo (won true true 0))
             (adminState (won true true 0)));
      first [reflexivity | discriminate].
Defined.

(** ** How many commands a cycle dispatches *)

(** Uses two answers of the external system to the same call in the same
    state: they are the same answer. *)
Ltac same_answer :=
  repeat match goal with
         | H1 : ?t = (_, _), H2 : ?t = (_, _) |- _ =>
             rewrite H1 in H2; simplify_eq
         end.

(** C5, as the code has it. A cycle dispatches at most one command, except
    when the snapshot is not active, the winner is the zero address and the
    [endAuctionNoBids] transaction is sent and confirmed: exactly then it
    dispatches two commands, [endAuctionNoBids] followed by [startAuction]
    with the default prices. No cycle dispatches more than two. *)
Theorem at_most_one_command_unless_no_bids
    {World} (handle : Handler World) (w : World) :
  let r := run handle checkAuctionStatus w in
  let reopen := startAuction (100 * 10 ^ 18) (10 * 10 ^ 18) in
  ((length (dispatched (trace r)) <= 1)%nat \/
   dispatched (trace r) = [endAuctionNoBids; reopen]) /\
  (dispatched (trace r) = [endAuctionNoBids; reopen] <->
   exists st wi tx w1 w2 w3 w4,
     handle getAuctionState w = (Ok st, w1) /\ isActive st = false /\
     handle getWinnerInfo w1 = (Ok wi, w2) /\
     winner wi = ethers.AddressZero /\
     handle endAuctionNoBids w2 = (Ok tx, w3) /\
     handle (wait tx) w3 = (Ok tt, w4)).
Proof.
  intros r reopen. subst r reopen. rewrite <- start_price, <- end_price.
  explore handle; (split; [first [left; cbn; lia | right; reflexivity]|]);
    split.
  all: try (intros H;
            lazymatch type of H with
            | ?l = ?l => fail
            | _ = _ => discriminate H
            end).
  all: try (intros _;
            repeat match goal with
                   | u : Resp (wait _) |- _ => destruct u
                   end;
            eexists _, _, _, _, _, _, _;
            (split; [reflexivity|]); (split; [assumption|]);
            (split; [eassumption|]); (split; [by apply String.eqb_eq|]);
            split; eassumption).
  all: intros (st & wi & tx & w1' & w2' & w3' & w4'
               & Hst & Hact & Hwi & Hzero & Hend & Hwait);
    apply eqb_sentinel in Hzero; simplify_eq; same_answer;
    first [reflexivity | congruence].
Qed.

Lemma at_most_one_command_unless_no_bids_witness :
  dispatched (trace (run mock checkAuctionStatus (no_bids 0)))
  = [endAuctionNoBids; startAuction (100 * 10 ^ 18) (10 * 10 ^ 18)].
Proof.
  apply (proj2 (proj2 (at_most_one_command_unless_no_bids mock (no_bids 0)))).
  exists (auction (no_bids 0)), (winnerInfo (no_bids 0)), (MkTx "0xfeed"),
    (no_bids 0), (no_bids 0), (no_bids 0), (no_bids 0).
  repeat split.
Defined.

(** The no-bids cycle of the specification's first example dispatches two
    commands. *)
Lemma no_bids_dispatches_two :
  dispatched (trace (run mock checkAuctionStatus (no_bids 0)))
    = [endAuctionNoBids; startAuction (100 * 10 ^ 18) (10 * 10 ^ 18)] /\
  ~ (length (dispatched (trace (run mock checkAuctionStatus (no_bids 0))))
     <= 1)%nat.
Proof. split; [reflexivity | vm_compute; lia]. Qed.

(** ** Failures inside a cycle *)

Lemma try_catch_never_throws {A} (p : async A) (h : Error -> async A) :
  (forall e, never_throws (h e)) -> never_throws (try_catch p h).
Proof.
  intros Hh. induction p as [a|e|l k IH|c k IH]; cbn; auto.
Qed.

Lemma checkAuctionStatus_never_throws : never_throws checkAuctionStatus.
Proof. apply try_catch_never_throws. intros e. exact I. Qed.

Lemma run_never_throws {World A} (handle : Handler World) (p : async A) :
  never_throws p -> forall w, exists a, outcome (run handle p w) = Ok a.
Proof.
  induction p as [a|e|l k IH|c k IH]; cbn; intros Hp w; eauto.
  contradiction.
Qed.

Lemma advance_settles_safely (p : async unit) :
  never_throws p -> settled_safely (snd (advance p)).
Proof.
  induction p as [a|e|l k IH|c k IH]; cbn; auto.
Qed.

(** After one failed claim the next cycle, reading the unchanged settlement
    state, dispatches the claim again. *)
Example failed_claim_is_retried :
  let first := run mock checkAuctionStatus (won true false 1) in
  let second := run mock checkAuctionStatus (world first) in
  calls (trace first)
    = [getAuctionState; getWinnerInfo; getAdminState; claimPayment 7] /\
  outcome first = Ok tt /\
  calls (trace second)
    = [getAuctionState; getWinnerInfo; getAdminState; claimPayment 7;
       wait (MkTx "0xfeed")].
Proof. repeat split. Qed.

(** ** The process never leaves its loop *)

Section ProcessFacts.

Context {World : Type} (handle : Handler World).

Lemma resume_settles_safely (s : Suspended) (w : World) :
  safe s -> settled_safely (snd (fst (resume handle s w))).
Proof.
  destruct s as [c k]. cbn. intros Hs. apply advance_settles_safely, Hs.
Qed.

Lemma main_invariant (env : ProcessEnv) (w : World) :
  invariant (main env w).
Proof.
  unfold main.
  pose proof (advance_settles_safely _ checkAuctionStatus_never_throws) as Hs.
  destruct (advance checkAuctionStatus) as [out [|e|s]]; cbn in Hs;
    [| contradiction |]; split; cbn; try done.
  intros s' [= <-]. exact Hs.
Qed.

Lemma step_invariant (l : Stimulus) (p p' : Process World) :
  invariant p -> step handle l p = Some p' -> invariant p'.
Proof.
  intros [Hrun Haw Hin Hstart Hpoll]. unfold step. rewrite Hrun.
  destruct l as [| |i].
  - (* the timer fires *)
    destruct (timer p) as [period|] eqn:Htimer; [|done].
    assert (awaited p = None) as Hnone.
    { destruct (awaited p) eqn:E; [|done].
      destruct Hstart as [Hstart _]; [done|congruence]. }
    pose proof (advance_settles_safely _ checkAuctionStatus_never_throws)
      as Hs.
    destruct (advance checkAuctionStatus) as [out [|e|s]]; cbn in Hs;
      [| contradiction |]; intros [= <-]; split; cbn;
      rewrite ?app_nil_r; try done; try congruence.
    apply Forall_app. split; [done|]. by constructor.
  - (* the call awaited by main settles *)
    destruct (awaited p) as [s|] eqn:Hs; [|done].
    pose proof (resume_settles_safely s (chain p) (Haw s eq_refl)) as Hsafe.
    destruct (resume handle s (chain p)) as [[out st] w].
    destruct Hstart as (Htimer & Hnil & Hone); [done|].
    cbn in Hsafe. intros [= <-].
    destruct st as [|e|s']; [| contradiction |]; split; cbn; try done.
    intros s0 [= <-]. exact Hsafe.
  - (* the call awaited by a timer-started invocation settles *)
    destruct (inflight p !! i) as [s|] eqn:Hs; [|done].
    assert (awaited p = None) as Hnone.
    { destruct (awaited p) eqn:E; [|done].
      destruct Hstart as (_ & Hnil & _); [done|].
      rewrite Hnil in Hs. discriminate. }
    assert (safe s) as Hsafe0.
    { eapply Forall_lookup_1; eauto. }
    pose proof (resume_settles_safely s (chain p) Hsafe0) as Hsafe.
    destruct (resume handle s (chain p)) as [[out st] w].
    assert (Forall safe (take i (inflight p))) as Htake
      by by apply Forall_take.
    assert (Forall safe (drop (S i) (inflight p))) as Hdrop
      by by apply Forall_drop.
    cbn in Hsafe. intros [= <-].
    destruct st as [|e|s']; [| contradiction |]; split; cbn;
      try done; try congruence.
    + by apply Forall_app.
    + apply Forall_app. split; [done|]. by constructor.
Qed.

Lemma exec_invariant (ls : list Stimulus) (p p' : Process World) :
  invariant p -> exec handle ls p = Some p' -> invariant p'.
Proof.
  revert p. induction ls as [|l ls IH]; cbn; intros p Hp.
  - by intros [= <-].
  - destruct (step handle l p) as [p1|] eqn:Hstep; [|done].
    apply IH. eapply step_invariant; eauto.
Qed.

Lemma reachable_invariant (env : ProcessEnv) (w : World)
    (ls : list Stimulus) (p : Process World) :
  exec handle ls (main env w) = Some p -> invariant p.
Proof. apply exec_invariant, main_invariant. Qed.

Lemma exec_app (ls1 ls2 : list Stimulus) (p : Process World) :
  exec handle (ls1 ++ ls2) p = exec handle ls1 p ≫= exec handle ls2.
Proof.
  revert p. induction ls1 as [|l ls1 IH]; cbn; intros p; [done|].
  destruct (step handle l p); cbn; auto.
Qed.

(** A tick of the installed timer starts a new invocation, whatever is
    still in flight. *)
Lemma tick_starts_invocation (p : Process World) (period : Z) :
  exitCode p = None -> timer p = Some period ->
  exists s p',
    step handle Tick p = Some p' /\
    inflight p' = inflight p ++ [s] /\
    pending s = getAuctionState /\
    started p' = S (started p) /\
    issued p' = issued p ++ [getAuctionState] /\
    timer p' = timer p /\ exitCode p' = None /\ awaited p' = awaited p.
Proof.
  intros Hrun Htimer. unfold step. rewrite Hrun, Htimer. cbn.
  eexists _, _. split; [reflexivity|]. cbn. repeat split; reflexivity.
Qed.

Lemma ticks_pile_up (n : nat) (p : Process World) (period : Z) :
  exitCode p = None -> timer p = Some period ->
  exists p',
    exec handle (replicate n Tick) p = Some p' /\
    length (inflight p') = (length (inflight p) + n)%nat.
Proof.
  revert p. induction n as [|n IH]; intros p Hrun Htimer; cbn [replicate exec].
  - exists p. split; [done|lia].
  - destruct (tick_starts_invocation p period Hrun Htimer)
      as (s & p1 & -> & Hin & _ & _ & _ & Ht & Hr & _).
    destruct (IH p1 Hr ltac:(congruence)) as (p' & Hexec & Hlen).
    exists p'. split; [done|]. rewrite Hlen, Hin, length_app. cbn. lia.
Qed.

(** Whatever the external system answers, the eager invocation comes to
    an end after finitely many settled calls, and the timer is set. *)
Lemma startup_continues (q : async unit) :
  never_throws q ->
  forall (p : Process World) (w : World),
    exitCode p = None -> inflight p = [] ->
    exists k p',
      exec handle (replicate k SettleMain)
        (continue_main (fst (advance q)) (snd (advance q)) w p) = Some p' /\
      timer p' = Some POLL_INTERVAL /\ inflight p' = [] /\
      exitCode p' = None.
Proof.
  induction q as [a|e|l q IH|c q IH]; cbn; intros Hq p w Hrun Hnil.
  - exists 0%nat. eexists. split; [reflexivity|]. done.
  - contradiction.
  - destruct (IH Hq
                (MkProcess (connection p) (chain p) (awaited p) (timer p)
                   (inflight p) (started p) (issued p) (console p ++ [l])
                   (exitCode p)) w Hrun Hnil)
      as (k & p' & Hexec & Hrest).
    exists k, p'. split; [|done]. rewrite <- Hexec. f_equal.
    destruct (snd (advance q)); cbn; rewrite <- ?app_assoc; reflexivity.
  - set (p1 := MkProcess (connection p) w (Some (Susp c q)) (timer p)
                 (inflight p) (started p) (issued p ++ [c])
                 (console p ++ []) (exitCode p)).
    destruct (IH (fst (handle c w)) (Hq _) p1 (snd (handle c w)) Hrun Hnil)
      as (k & p' & Hexec & Hrest).
    exists (S k), p'. split; [|done].
    cbn [replicate exec]. unfold step. cbn. rewrite Hrun. cbn.
    destruct (advance (q (handle c w).1)) as [out st]. exact Hexec.
Qed.

Lemma startup_completes (env : ProcessEnv) (w : World) :
  exists k p,
    exec handle (replicate k SettleMain) (main env w) = Some p /\
    timer p = Some POLL_INTERVAL /\ inflight p = [] /\ exitCode p = None.
Proof.
  unfold main.
  pose proof (startup_continues checkAuctionStatus
                checkAuctionStatus_never_throws
                (MkProcess (connect env) w None None [] 1%nat []
                   [LogListening] None) w eq_refl eq_refl) as H.
  destruct (advance checkAuctionStatus) as [out st]. exact H.
Qed.

End ProcessFacts.

(** C6. Whatever a cycle's reads, dispatches and confirmations answer:
    [checkAuctionStatus] returns normally to its caller; the first failed
    call is followed by the error line and by nothing else, so no further
    call is attempted in that cycle; every cycle begins with a new snapshot
    read, and so does the invocation the next tick starts; and no reachable
    state of the process has exited. *)
Theorem cycle_errors_are_swallowed
    {World} (handle : Handler World) (w : World) :
  let r := run handle checkAuctionStatus w in
  outcome r = Ok tt /\
  (forall pre ev post e,
      trace r = pre ++ ev :: post ->
      failure_of ev = Some e ->
      post = [Printed (LogCycleError e)]) /\
  (exists a, head (trace r) = Some (Called getAuctionState a)) /\
  (forall env ls p,
      exec handle ls (main env w) = Some p ->
      exitCode p = None /\
      (timer p <> None ->
       exists s p',
         step handle Tick p = Some p' /\
         inflight p' = inflight p ++ [s] /\
         pending s = getAuctionState)).
Proof.
  intros r. subst r. repeat split.
  - explore handle; try reflexivity;
      match goal with |- Ok ?u = Ok () => by destruct u end.
  - explore handle; intros pre ev post e H Hev; positions H;
      match goal with
      | E : _ = ev |- _ => rewrite <- E in Hev; cbn in Hev
      end;
      first [discriminate | by injection Hev as ->].
  - explore handle; eauto.
  - apply (inv_running p), (reachable_invariant handle env w ls p H).
  - intros Htimer. destruct (timer p) as [period|] eqn:E; [|done].
    pose proof (inv_running p (reachable_invariant handle env w ls p H))
      as Hrun.
    destruct (tick_starts_invocation handle p period Hrun E)
      as (s & p' & ? & ? & ? & _).
    by exists s, p'.
Qed.

Lemma cycle_errors_are_swallowed_witness :
  exitCode <$>
    exec mock [SettleMain; SettleMain; SettleMain; SettleMain]
      (main ∅ (won true false 1))
  = Some None.
Proof.
  destruct (cycle_errors_are_swallowed mock (won true false 1))
    as (_ & _ & _ & H).
  destruct (exec mock [SettleMain; SettleMain; SettleMain; SettleMain]
              (main ∅ (won true false 1))) as [p|] eqn:E.
  - cbn. f_equal. apply (H ∅ _ p E).
  - vm_compute in E. discriminate.
Defined.

(** ** The settlement read *)

(** C8. [getAdminState] is only ever called after the same cycle's winner
    read has answered with a winner other than the zero address. *)
Theorem settlement_read_is_guarded
    {World} (handle : Handler World) (w : World)
    (pre post : list Event) (a : result AdminState) :
  trace (run handle checkAuctionStatus w)
    = pre ++ Called getAdminState a :: post ->
  exists wi,
    In (Called getWinnerInfo (Ok wi)) pre /\
    winner wi <> ethers.AddressZero.
Proof.
  revert pre post a.
  explore handle; intros pre post ad H; positions H;
    match goal with
    | E : _ = Called getAdminState _ |- _ =>
        first
          [ by apply (f_equal call_of) in E
          | eexists; split; [cbn; eauto 8 | by apply String.eqb_neq] ]
    end.
Qed.

Lemma settlement_read_is_guarded_witness :
  exists wi,
    In (Called getWinnerInfo (Ok wi))
       [Called getAuctionState (Ok (MkAuctionState 50 false 0));
        Printed LogNotActive;
        Called getWinnerInfo
          (Ok (MkWinnerInfo "0x0000000000000000000000000000000000000ABC" 42 7));
        Printed (LogWinner "0x0000000000000000000000000000000000000ABC")] /\
    winner wi <> ethers.AddressZero.
Proof.
  eapply (settlement_read_is_guarded mock (won false false 0)).
  reflexivity.
Defined.

(** ** The scheduler *)

(** C7, as the code has it. [setInterval] starts a new invocation at every
    tick of the installed timer, whether or not earlier invocations are
    still awaiting an external call: no tick is skipped or queued, so any
    number of invocations can be in flight at once.  Only the eager
    invocation is serialized: while [main] awaits it the timer is not set
    and nothing else is in flight. *)
Theorem every_tick_starts_a_cycle {World} (handle : Handler World) :
  (forall p period,
      exitCode p = None -> timer p = Some period ->
      exists s p',
        step handle Tick p = Some p' /\
        inflight p' = inflight p ++ [s] /\
        pending s = getAuctionState /\
        started p' = S (started p)) /\
  (forall env w n,
      exists ls p,
        exec handle ls (main env w) = Some p /\
        length (inflight p) = n) /\
  (forall env w ls p,
      exec handle ls (main env w) = Some p ->
      awaited p <> None ->
      timer p = None /\ inflight p = []).
Proof.
  repeat split.
  - intros p period Hrun Htimer.
    destruct (tick_starts_invocation handle p period Hrun Htimer)
      as (s & p' & ? & ? & ? & ? & _).
    by exists s, p'.
  - intros env w n.
    destruct (startup_completes handle env w)
      as (k & p0 & Hstart & Htimer & Hnil & Hrun).
    destruct (ticks_pile_up handle n p0 _ Hrun Htimer) as (p & Hticks & Hlen).
    exists (replicate k SettleMain ++ replicate n Tick), p.
    rewrite exec_app, Hstart. cbn. split; [done|].
    rewrite Hlen, Hnil. done.
  - apply (inv_startup p (reachable_invariant handle env w ls p H) H0).
  - apply (inv_startup p (reachable_invariant handle env w ls p H) H0).
Qed.

Lemma every_tick_starts_a_cycle_witness :
  exists s p',
    step mock Tick busy = Some p' /\
    inflight p' = inflight busy ++ [s] /\
    pending s = getAuctionState /\
    started p' = S (started busy).
Proof.
  destruct (every_tick_starts_a_cycle mock) as (H & _ & _).
  apply (H busy POLL_INTERVAL); reflexivity.
Defined.

(** Two ticks while the first invocation is still awaiting: the second
    tick is not skipped, both invocations run, and once their reads have
    settled each of them has an [endAuctionNoBids] command in flight. *)
Lemma overlapping_cycles :
  (map pending ∘ inflight) <$> exec mock two_ticks (main ∅ (no_bids 0))
    = Some [endAuctionNoBids; endAuctionNoBids] /\
  commands_in_flight <$> exec mock two_ticks (main ∅ (no_bids 0))
    = Some [endAuctionNoBids; endAuctionNoBids] /\
  (length ∘ inflight) <$> exec mock two_ticks (main ∅ (no_bids 0))
    = Some 2%nat.
Proof. repeat split; vm_compute; reflexivity. Qed.

(** C9, as the code has it. [main] starts [checkAuctionStatus] once and
    awaits it before the timer exists; when that invocation has ended the
    timer is set with a period of 15000 ms, a constant of the script that
    no environment variable changes; from then on every tick starts one
    more invocation, the timer stays set and the process never exits. *)
Theorem eager_cycle_then_fixed_period
    {World} (handle : Handler World) (env : ProcessEnv) (w : World) :
  (started (main env w) = 1%nat /\
   timer (main env w) = None /\
   pending <$> awaited (main env w) = Some getAuctionState /\
   step handle Tick (main env w) = None) /\
  (forall ls p,
      exec handle ls (main env w) = Some p ->
      exitCode p = None /\
      (timer p = None \/ timer p = Some 15000) /\
      (timer p = None <-> awaited p <> None) /\
      (timer p = None -> started p = 1%nat /\ inflight p = []) /\
      (timer p <> None ->
       exists p',
         step handle Tick p = Some p' /\
         started p' = S (started p) /\ timer p' = timer p)).
Proof.
  split; [by repeat split|].
  intros ls p Hexec.
  destruct (reachable_invariant handle env w ls p Hexec)
    as [Hrun Haw Hin Hstart Hpoll].
  assert (timer p = None <-> awaited p <> None) as Hiff.
  { split.
    - intros Hnone Haw0. specialize (Hpoll Haw0). congruence.
    - intros Hsome. by destruct Hstart. }
  split; [exact Hrun|]. split; [|split; [exact Hiff|split]].
  - destruct (awaited p) eqn:E.
    + left. by destruct Hstart.
    + right. by apply Hpoll.
  - intros Hnone. apply Hiff in Hnone.
    destruct Hstart as (_ & ? & ?); done.
  - intros Htimer. destruct (timer p) as [period|] eqn:E; [|done].
    destruct (tick_starts_invocation handle p period Hrun E)
      as (s & p' & ? & ? & ? & ? & ? & ? & _).
    exists p'. repeat split; congruence.
Qed.

Lemma eager_cycle_then_fixed_period_witness :
  timer <$> exec mock [SettleMain] (main ∅ live) = Some (Some 15000).
Proof.
  destruct (eager_cycle_then_fixed_period mock ∅ live) as [_ H].
  destruct (exec mock [SettleMain] (main ∅ live)) as [p|] eqn:E.
  - destruct (H [SettleMain] p E) as (_ & [Hnone|Hsome] & Hiff & _).
    + apply Hiff in Hnone. vm_compute in E. injection E as <-.
      exfalso. apply Hnone. reflexivity.
    + cbn. f_equal. exact Hsome.
  - vm_compute in E. discriminate.
Defined.

(** Setting [POLL_INTERVAL] (or anything else) in the environment does not
    change the period: it is 15000 ms with and without the variable, and
    no environment gives another one. *)
Lemma poll_interval_not_configurable :
  timer <$> exec mock [SettleMain]
              (main {[ "POLL_INTERVAL" := "1000" ]} live)
    = Some (Some 15000) /\
  timer <$> exec mock [SettleMain] (main ∅ live) = Some (Some 15000) /\
  ~ (exists (env : ProcessEnv) ls p period,
        exec mock ls (main env live) = Some p /\
        timer p = Some period /\ period <> 15000).
Proof.
  repeat split.
  intros (env & ls & p & period & Hexec & Htimer & Hperiod).
  pose proof (reachable_invariant mock env live ls p Hexec)
    as [Hrun Haw Hin Hstart Hpoll].
  destruct (awaited p) eqn:E.
  - destruct Hstart as (Hnone & _); [done|]. congruence.
  - specialize (Hpoll eq_refl). rewrite Htimer in Hpoll.
    injection Hpoll as ->. by apply Hperiod.
Qed.

(** ** What the decision depends on *)





(** ** How a cycle treats the transactions it sends *)

Lemma last_two_nil {A} (x y y' : A) : y = y' -> [x; y] = [] ++ [x; y'].
Proof. by intros ->. Qed.

Lemma last_two_cons {A} (z : A) (l l' t : list A) :
  l = l' ++ t -> z :: l = (z :: l') ++ t.
Proof. by intros ->. Qed.

(** Finds the prefix of a concrete list before its last two elements, and
    leaves the equation on the last one. *)
Ltac last_two := first [apply last_two_nil | apply last_two_cons; last_two].

Arguments In : simpl never.

(** Membership in a concrete list. *)
Ltac in_list := first [apply in_eq | apply in_cons; in_list].

(** Runs [tac] on the members of the concrete list [L] until it succeeds. *)
Ltac pick_event L tac :=
  lazymatch L with
  | ?x :: ?L' => first [tac x | pick_event L' tac]
  end.

(** Walks [H : In x concrete_trace] through every member, running [tac] on
    each. *)
Ltac members H tac :=
  cbv [In] in H;
  repeat (destruct H as [<- | H]; [tac |]);
  try contradiction.

(** The same, handing the equation of each member to [tac]. *)
Ltac members_eq H tac :=
  cbv [In] in H;
  repeat (let E := fresh "E" in destruct H as [E | H]; [tac E |]);
  try contradiction.

(** X1. Every transaction a cycle gets back from a state-changing call is
    printed with the name of the function and its hash, and then awaited,
    before the cycle does anything else. *)
Theorem sent_transaction_is_awaited
    {World} (handle : Handler World) (w : World)
    (pre post : list Event) (ev : Event) (c : Call) (tx : Tx) :
  trace (run handle checkAuctionStatus w) = pre ++ ev :: post ->
  call_of ev = Some c ->
  receipt_of ev = Some tx ->
  exists a rest,
    post = Printed (LogCalled (function_name c) (hash tx))
           :: Called (wait tx) a :: rest.
Proof.
  revert pre post ev c tx.
  explore handle; intros pre post ev c tx H Hc Htx; positions H;
    match goal with E : _ = ev |- _ => subst ev end;
    cbn in Hc, Htx; simplify_eq; eexists _, _; reflexivity.
Qed.

Lemma sent_transaction_is_awaited_witness :
  exists a rest,
    [Printed (LogCalled "claimPayment" "0xfeed");
     Called (wait (MkTx "0xfeed")) (Ok tt)]
    = Printed (LogCalled (function_name (claimPayment 7))
                 (hash (MkTx "0xfeed")))
      :: Called (wait (MkTx "0xfeed")) a :: rest.
Proof.
  eapply (sent_transaction_is_awaited mock (won true false 0)
            [Called getAuctionState (Ok (auction (won true false 0)));
             Printed LogNotActive;
             Called getWinnerInfo (Ok (winnerInfo (won true false 0)));
             Printed (LogWinner (winner (winnerInfo (won true false 0))));
             Called getAdminState (Ok (adminState (won true false 0)));
             Printed LogClaiming]
            _ (Called (claimPayment 7) (Ok (MkTx "0xfeed"))));
    reflexivity.
Defined.

(** X2. A cycle only waits for a transaction it has just sent: every
    [tx.wait()] comes right after the state-changing call that resolved to
    that transaction and the line that prints its hash. *)
Theorem wait_follows_its_send
    {World} (handle : Handler World) (w : World)
    (pre post : list Event) (ev : Event) (tx : Tx) :
  trace (run handle checkAuctionStatus w) = pre ++ ev :: post ->
  call_of ev = Some (wait tx) ->
  exists pre' sender c,
    pre = pre' ++ [sender; Printed (LogCalled (function_name c) (hash tx))] /\
    call_of sender = Some c /\
    is_command c = true /\
    receipt_of sender = Some tx.
Proof.
  revert pre post ev tx.
  explore handle; intros pre post ev tx H Hc; positions H;
    match goal with E : _ = ev |- _ => subst ev end;
    cbn in Hc; simplify_eq;
    eexists _, _, _; (split; [last_two | repeat split]).
  all: reflexivity.
Qed.

Lemma wait_follows_its_send_witness :
  exists pre' sender c,
    [Called getAuctionState (Ok (auction (won true false 0)));
     Printed LogNotActive;
     Called getWinnerInfo (Ok (winnerInfo (won true false 0)));
     Printed (LogWinner (winner (winnerInfo (won true false 0))));
     Called getAdminState (Ok (adminState (won true false 0)));
     Printed LogClaiming;
     Called (claimPayment 7) (Ok (MkTx "0xfeed"));
     Printed (LogCalled "claimPayment" "0xfeed")]
    = pre' ++ [sender;
               Printed (LogCalled (function_name c) (hash (MkTx "0xfeed")))] /\
    call_of sender = Some c /\
    is_command c = true /\
    receipt_of sender = Some (MkTx "0xfeed").
Proof.
  eapply (wait_follows_its_send mock (won true false 0) _ []
            (Called (wait (MkTx "0xfeed")) (Ok tt)));
    reflexivity.
Defined.

(** ** The order and the number of a cycle's calls *)

(** X3. A cycle reads before it writes: its view calls are the first calls
    it issues, they are [getAuctionState], then [getWinnerInfo], then
    [getAdminState], each at most once and none without the one before;
    the state is never read again after a command.  A cycle issues at
    most six external calls. *)
Theorem reads_come_first {World} (handle : Handler World) (w : World) :
  let t := trace (run handle checkAuctionStatus w) in
  calls t = reads t ++ List.filter (fun c => negb (is_read c)) (calls t) /\
  (reads t = [getAuctionState] \/
   reads t = [getAuctionState; getWinnerInfo] \/
   reads t = [getAuctionState; getWinnerInfo; getAdminState]) /\
  (length (calls t) <= 6)%nat.
Proof.
  intros t. subst t.
  explore handle; (split; [reflexivity|]); (split; [auto|cbn; lia]).
Qed.

(** X4. A cycle dispatches nothing exactly when one of its reads was
    rejected or the snapshot it read says the auction is active. *)
Theorem idle_iff_live_or_read_failed
    {World} (handle : Handler World) (w : World) :
  let t := trace (run handle checkAuctionStatus w) in
  dispatched t = [] <->
  (exists ev, In ev t /\ read_failed ev = true) \/
  (exists ev st, In ev t /\ snapshot_of ev = Some st /\ isActive st = true).
Proof.
  intros t. subst t.
  explore handle; split;
    try (intros ?; reflexivity); try (intros ?; discriminate).
  all: try (intros _;
            lazymatch goal with
            | |- (exists ev, In ev ?L /\ @?P ev) \/ _ =>
                first
                  [ left;
                    pick_event L
                      ltac:(fun x => exists x; split; [in_list|reflexivity])
                  | right;
                    pick_event L
                      ltac:(fun x =>
                              exists x; eexists; split; [in_list|];
                              split; [reflexivity|assumption]) ]
            end).
  all: intros [(ev & Hin & Hbad) | (ev & st & Hin & Hst & Hact)];
    exfalso;
    [ members Hin ltac:(cbn in Hbad; try discriminate)
    | members Hin ltac:(cbn in Hst; try discriminate; simplify_eq;
                        congruence) ].
Qed.

Lemma idle_iff_live_or_read_failed_witness :
  dispatched (trace (run mock checkAuctionStatus live)) = [].
Proof.
  apply (proj2 (idle_iff_live_or_read_failed mock live)).
  right. exists (Called getAuctionState (Ok (auction live))), (auction live).
  split; [|split; reflexivity].
  vm_compute. left. reflexivity.
Defined.

(** X5. What a cycle dispatches is one of: nothing; [endAuctionNoBids]
    alone; [endAuctionNoBids] and then [startAuction] with the default
    prices; that [startAuction] alone; or, for the winner with a non-zero
    address that this cycle read, [submitProof] of that winner's token with
    the zero proof, or [claimPayment] of that winner's token.  No other
    prices, proofs or token ids are ever sent. *)
Theorem dispatch_shapes {World} (handle : Handler World) (w : World) :
  let t := trace (run handle checkAuctionStatus w) in
  let reopen := startAuction (100 * 10 ^ 18) (10 * 10 ^ 18) in
  dispatched t = [] \/
  dispatched t = [endAuctionNoBids] \/
  dispatched t = [endAuctionNoBids; reopen] \/
  dispatched t = [reopen] \/
  exists ev wi,
    In ev t /\ winner_of ev = Some wi /\
    winner wi <> ethers.AddressZero /\
    (dispatched t = [submitProof (winningTokenId wi) zeroProof] \/
     dispatched t = [claimPayment (winningTokenId wi)]).
Proof.
  intros t reopen. subst t reopen. rewrite <- start_price, <- end_price.
  explore handle;
    first
      [ by auto 6
      | do 4 right;
        lazymatch goal with
        | |- exists ev wi, In ev ?L /\ _ =>
            pick_event L
              ltac:(fun x =>
                      exists x; eexists; split; [in_list|];
                      split; [reflexivity|];
                      split; [by apply String.eqb_neq | auto])
        end ].
Qed.

(** X6. The error line is printed exactly for the rejection of a call of
    this cycle, with the error of that call: no failure without the line,
    and no line without a failed call. *)
Theorem error_line_iff_rejection
    {World} (handle : Handler World) (w : World) (e : Error) :
  let t := trace (run handle checkAuctionStatus w) in
  In (Printed (LogCycleError e)) t <->
  exists ev, In ev t /\ failure_of ev = Some e.
Proof.
  intros t. subst t. revert e.
  explore handle; intros e; split.
  all: try (intros Hin; members_eq Hin ltac:(fun E => discriminate E); fail).
  all: try (intros (ev & Hin & Hbad);
            members Hin ltac:(cbn in Hbad; try discriminate); fail).
  all: try (intros Hin;
            members_eq Hin
              ltac:(fun E =>
                      first
                        [ discriminate E
                        | injection E as <-;
                          lazymatch goal with
                          | |- exists ev, In ev ?L /\ _ =>
                              pick_event L
                                ltac:(fun x =>
                                        exists x;
                                        split; [in_list|reflexivity])
                          end ]);
            fail).
  all: intros (ev & Hin & Hbad);
    members Hin ltac:(cbn in Hbad; try discriminate; simplify_eq; in_list).
Qed.

Lemma error_line_iff_rejection_witness :
  In (Printed (LogCycleError (MkError "reverted")))
     (trace (run mock checkAuctionStatus (won true false 1))).
Proof.
  apply (proj2 (error_line_iff_rejection mock (won true false 1)
                  (MkError "reverted"))).
  exists (Called (claimPayment 7) (Err (MkError "reverted"))).
  split; [|reflexivity].
  vm_compute. do 6 right. left. reflexivity.
Defined.

(** ** The process performs whole cycles *)

Lemma checkAuctionStatus_within : calls_within 6 checkAuctionStatus.
Proof.
  unfold checkAuctionStatus. cbn.
  repeat match goal with
         | |- forall r, _ => intros [?|?]; cbn
         | |- context [if ?b then _ else _] => destruct b; cbn
         | |- True => exact I
         end.
Qed.

Section Cycles.

Context {World : Type} (handle : Handler World).

Lemma run_calls_within {A} (n : nat) (q : async A) (w : World) :
  calls_within n q -> (length (calls (trace (run handle q w))) <= n)%nat.
Proof.
  unfold calls.
  revert n w. induction q as [a|e|l q IH|c q IH]; cbn; intros n w Hq;
    try lia; [by apply IH|].
  destruct n as [|n]; [done|].
  specialize (IH (fst (handle c w)) n (snd (handle c w)) (Hq _)).
  lia.
Qed.

Lemma main_runs_the_cycle (q : async unit) :
  never_throws q ->
  forall (p : Process World) (w : World),
    exitCode p = None ->
    exec handle
      (replicate (length (calls (trace (run handle q w)))) SettleMain)
      (continue_main (fst (advance q)) (snd (advance q)) w p)
    = Some (startPolling
              (MkProcess (connection p) (world (run handle q w)) None
                 (timer p) (inflight p) (started p)
                 (issued p ++ calls (trace (run handle q w)))
                 (console p ++ printed (trace (run handle q w)))
                 (exitCode p))).
Proof.
  induction q as [a|e|l q IH|c q IH]; cbn; intros Hq p w Hrun.
  - by rewrite !app_nil_r.
  - contradiction.
  - pose proof (IH Hq
                  (MkProcess (connection p) (chain p) (awaited p) (timer p)
                     (inflight p) (started p) (issued p) (console p ++ [l])
                     (exitCode p)) w Hrun) as Hexec.
    cbn in Hexec. rewrite <- app_assoc in Hexec.
    etransitivity; [|exact Hexec]. f_equal.
    destruct (snd (advance q)); cbn; rewrite <- ?app_assoc; reflexivity.
  - unfold step. cbn. rewrite Hrun. cbn.
    pose proof (IH (fst (handle c w)) (Hq _)
                  (MkProcess (connection p) w (Some (Susp c q)) (timer p)
                     (inflight p) (started p) (issued p ++ [c])
                     (console p ++ []) (exitCode p))
                  (snd (handle c w)) Hrun) as Hexec.
    destruct (advance (q (handle c w).1)) as [out st].
    cbn in Hexec. rewrite Hrun in Hexec.
    etransitivity; [exact Hexec|].
    by rewrite app_nil_r, <- app_assoc.
Qed.

Lemma cycle_runs_alone (q : async unit) :
  never_throws q ->
  forall (p : Process World) (w : World) (before : list Suspended),
    exitCode p = None ->
    exec handle
      (replicate (length (calls (trace (run handle q w))))
         (Settle (length before)))
      (continue_cycle (fst (advance q)) (snd (advance q)) before [] w p)
    = Some (MkProcess (connection p) (world (run handle q w)) (awaited p)
              (timer p) before (started p)
              (issued p ++ calls (trace (run handle q w)))
              (console p ++ printed (trace (run handle q w)))
              (exitCode p)).
Proof.
  induction q as [a|e|l q IH|c q IH]; cbn; intros Hq p w before Hrun.
  - by rewrite !app_nil_r.
  - contradiction.
  - pose proof (IH Hq
                  (MkProcess (connection p) (chain p) (awaited p) (timer p)
                     (inflight p) (started p) (issued p) (console p ++ [l])
                     (exitCode p)) w before Hrun) as Hexec.
    cbn in Hexec. rewrite <- app_assoc in Hexec.
    etransitivity; [|exact Hexec]. f_equal.
    destruct (snd (advance q)); cbn; rewrite <- ?app_assoc; reflexivity.
  - unfold step. cbn. rewrite Hrun. cbn.
    rewrite list_lookup_middle by done. cbn.
    rewrite take_app_length, drop_ge by (rewrite length_app; cbn; lia).
    pose proof (IH (fst (handle c w)) (Hq _)
                  (MkProcess (connection p) w (awaited p) (timer p)
                     (before ++ [Susp c q]) (started p) (issued p ++ [c])
                     (console p ++ []) (exitCode p))
                  (snd (handle c w)) before Hrun) as Hexec.
    destruct (advance (q (handle c w).1)) as [out st].
    cbn in Hexec. rewrite Hrun in Hexec.
    etransitivity; [exact Hexec|].
    by rewrite app_nil_r, <- app_assoc.
Qed.

End Cycles.

(** X7. Whatever the external system answers, [main] performs exactly one
    whole cycle before polling: after as many settled calls as that cycle
    issues (at most six) the external system is in the state the cycle
    leaves it in, the calls issued are the cycle's, the console shows the
    listening line, the cycle's lines and the polling line, and the timer
    is set with nothing in flight. *)
Theorem startup_is_one_cycle
    {World} (handle : Handler World) (env : ProcessEnv) (w : World) :
  let r := run handle checkAuctionStatus w in
  let k := length (calls (trace r)) in
  exists p,
    exec handle (replicate k SettleMain) (main env w) = Some p /\
    chain p = world r /\
    issued p = calls (trace r) /\
    console p = LogListening :: printed (trace r) ++ [LogPolling] /\
    timer p = Some POLL_INTERVAL /\
    awaited p = None /\ inflight p = [] /\ started p = 1%nat /\
    (k <= 6)%nat.
Proof.
  intros r k. subst r k.
  pose proof (main_runs_the_cycle handle checkAuctionStatus
                checkAuctionStatus_never_throws
                (MkProcess (connect env) w None None [] 1%nat []
                   [LogListening] None) w eq_refl) as Hexec.
  unfold main. destruct (advance checkAuctionStatus) as [out st].
  cbn [fst snd] in Hexec. rewrite Hexec.
  eexists. split; [reflexivity|]. repeat split.
  apply run_calls_within, checkAuctionStatus_within.
Qed.

(** X8. An invocation started by a tick, whose calls settle before
    anything else happens, is one whole cycle: the external system ends in
    the state that cycle leaves it in, the calls issued and the lines
    printed are the cycle's, and the invocations that were already in
    flight are left as they were. *)
Theorem tick_is_one_cycle
    {World} (handle : Handler World) (p : Process World) (period : Z) :
  exitCode p = None ->
  timer p = Some period ->
  let r := run handle checkAuctionStatus (chain p) in
  exec handle
    (Tick :: replicate (length (calls (trace r)))
               (Settle (length (inflight p)))) p
  = Some (MkProcess (connection p) (world r) (awaited p) (timer p)
            (inflight p) (S (started p))
            (issued p ++ calls (trace r))
            (console p ++ printed (trace r)) (exitCode p)).
Proof.
  intros Hrun Htimer r. subst r.
  pose proof (cycle_runs_alone handle checkAuctionStatus
                checkAuctionStatus_never_throws
                (MkProcess (connection p) (chain p) (awaited p) (timer p)
                   (inflight p) (S (started p)) (issued p) (console p)
                   (exitCode p))
                (chain p) (inflight p) Hrun) as Hexec.
  cbn [exec]. unfold step at 1.
  destruct (advance checkAuctionStatus) as [out st].
  cbn in Hexec. rewrite Hrun, Htimer in Hexec |- *. exact Hexec.
Qed.

Lemma tick_is_one_cycle_witness :
  issued <$>
    exec mock (Tick :: replicate 1 (Settle 1)) busy
  = Some [getAuctionState; getAuctionState].
Proof.
  rewrite (tick_is_one_cycle mock busy POLL_INTERVAL eq_refl eq_refl
           : exec mock (Tick :: replicate 1 (Settle 1)) busy = _).
  reflexivity.
Defined.

(** ** How many calls the process issues *)

Lemma advance_within (n : nat) (q : async unit) :
  calls_within n q ->
  match snd (advance q) with
  | Pending s => exists m, n = S m /\ budget s m
  | _ => True
  end.
Proof.
  induction q as [a|e|l q IH|c q IH]; cbn; auto.
  destruct n as [|m]; [done|]. eauto.
Qed.

Lemma step_started {World} (handle : Handler World)
    (l : Stimulus) (p p' : Process World) :
  step handle l p = Some p' ->
  started p' = (started p + if is_tick l then 1 else 0)%nat.
Proof.
  unfold step. destruct (exitCode p); [done|].
  destruct l as [| |i]; cbn.
  - destruct (timer p); [|done].
    destruct (advance checkAuctionStatus) as [out [|e|s]];
      intros [= <-]; cbn; lia.
  - destruct (awaited p) as [s|]; [|done].
    destruct (resume handle s (chain p)) as [[out [|e|s']] w];
      intros [= <-]; cbn; lia.
  - destruct (inflight p !! i) as [s|]; [|done].
    destruct (resume handle s (chain p)) as [[out [|e|s']] w];
      intros [= <-]; cbn; lia.
Qed.

Lemma step_within_budget {World} (handle : Handler World)
    (l : Stimulus) (p p' : Process World) :
  within_budget p -> step handle l p = Some p' -> within_budget p'.
Proof.
  intros (ns & Hns & Hsum). unfold step, within_budget, suspended in *.
  destruct (exitCode p); [done|].
  destruct l as [| |i].
  - (* the timer fires *)
    destruct (timer p); [|done].
    pose proof (advance_within 6 _ checkAuctionStatus_within) as Hadv.
    destruct (advance checkAuctionStatus) as [out [|e|s]];
      cbn in Hadv; intros [= <-]; cbn; rewrite ?app_nil_r.
    + exists ns. split; [done|lia].
    + exists ns. split; [done|lia].
    + destruct Hadv as (m & [= <-] & Hm).
      exists (ns ++ [5%nat]). split.
      * rewrite app_assoc. apply Forall2_app; [done|]. by repeat constructor.
      * rewrite sum_list_with_app, length_app. cbn. lia.
  - (* the call awaited by main settles *)
    destruct (awaited p) as [[c k]|]; [|done]. cbn in Hns.
    apply Forall2_cons_inv_l in Hns as (n & ns' & Hn & Hns' & ->).
    cbn in Hn, Hsum |- *.
    pose proof (advance_within n _ (Hn (fst (handle c (chain p))))) as Hadv.
    destruct (advance (k (handle c (chain p)).1)) as [out [|e|s']];
      cbn in Hadv; intros [= <-]; cbn.
    + exists ns'. split; [done|lia].
    + exists ns'. split; [done|lia].
    + destruct Hadv as (m & -> & Hm).
      exists (m :: ns'). split; [by constructor|].
      rewrite length_app. cbn. lia.
  - (* the call awaited by a timer-started invocation settles *)
    destruct (inflight p !! i) as [[c k]|] eqn:Hi; [|done].
    apply Forall2_app_inv_l in Hns as (na & ni & Hna & Hni & ->).
    destruct (Forall2_lookup_l _ _ _ _ _ Hni Hi) as (n & Hn & Hbud).
    pose proof (Forall2_take _ _ _ i Hni) as Htake.
    pose proof (Forall2_drop _ _ _ (S i) Hni) as Hdrop.
    assert (sum_list ni
            = sum_list (take i ni) + n + sum_list (drop (S i) ni))%nat
      as Hsplit.
    { rewrite <- (take_drop_middle ni i n Hn) at 1.
      rewrite sum_list_with_app. cbn. lia. }
    rewrite sum_list_with_app, Hsplit in Hsum.
    cbn in Hbud |- *.
    pose proof (advance_within n _ (Hbud (fst (handle c (chain p)))))
      as Hadv.
    destruct (advance (k (handle c (chain p)).1)) as [out [|e|s']];
      cbn in Hadv; intros [= <-]; cbn.
    + exists (na ++ take i ni ++ drop (S i) ni). split.
      * apply Forall2_app; [done|]. by apply Forall2_app.
      * rewrite !sum_list_with_app. lia.
    + exists (na ++ take i ni ++ drop (S i) ni). split.
      * apply Forall2_app; [done|]. by apply Forall2_app.
      * rewrite !sum_list_with_app. lia.
    + destruct Hadv as (m & -> & Hm).
      exists (na ++ take i ni ++ m :: drop (S i) ni). split.
      * apply Forall2_app; [done|]. apply Forall2_app; [done|].
        by constructor.
      * rewrite !sum_list_with_app, length_app. cbn. lia.
Qed.

Lemma main_within_budget {World} (env : ProcessEnv) (w : World) :
  within_budget (main env w).
Proof.
  unfold main, within_budget, suspended.
  pose proof (advance_within 6 _ checkAuctionStatus_within) as Hadv.
  destruct (advance checkAuctionStatus) as [out [|e|s]]; cbn in Hadv |- *.
  - exists []. split; [constructor|vm_compute; lia].
  - exists []. split; [constructor|vm_compute; lia].
  - destruct Hadv as (m & [= <-] & Hm).
    exists [5%nat]. split; [by repeat constructor|vm_compute; lia].
Qed.

(** X9. The process starts one invocation for [main] and one more per
    tick, never another, and in every state it can reach it has issued at
    most six external calls per invocation started. *)
Theorem calls_are_bounded_by_ticks
    {World} (handle : Handler World) (env : ProcessEnv) (w : World)
    (ls : list Stimulus) (p : Process World) :
  exec handle ls (main env w) = Some p ->
  started p = S (ticks ls) /\
  (length (issued p) <= 6 * S (ticks ls))%nat.
Proof.
  intros Hexec.
  assert (forall ls q q',
             within_budget q -> exec handle ls q = Some q' ->
             within_budget q' /\ started q' = (started q + ticks ls)%nat)
    as Hgen.
  { clear. intros ls. induction ls as [|l ls IH]; cbn; intros q q' Hq.
    - intros [= <-]. split; [done|]. unfold ticks. cbn. lia.
    - destruct (step handle l q) as [q1|] eqn:Hstep; [|done]. intros Hexec.
      destruct (IH q1 q' (step_within_budget handle l q q1 Hq Hstep) Hexec)
        as [Hb Hs].
      split; [done|]. rewrite Hs, (step_started handle l q q1 Hstep).
      unfold ticks. cbn. destruct l; cbn; lia. }
  destruct (Hgen ls _ p (main_within_budget env w) Hexec)
    as [(ns & _ & Hsum) Hstarted].
  assert (started (main env w) = 1%nat) as Hone.
  { unfold main. by destruct (advance checkAuctionStatus) as [out [|e|s]]. }
  rewrite Hone in Hstarted. split; [lia|].
  rewrite Hstarted in Hsum. lia.
Qed.

Lemma calls_are_bounded_by_ticks_witness :
  (length ∘ issued) <$> exec mock two_ticks (main ∅ (no_bids 0))
  = Some 12%nat /\
  (12 <= 6 * S (ticks two_ticks))%nat.
Proof.
  destruct (exec mock two_ticks (main ∅ (no_bids 0))) as [p|] eqn:E.
  - pose proof (calls_are_bounded_by_ticks mock ∅ (no_bids 0) two_ticks p E)
      as [_ Hbound].
    vm_compute in E. injection E as <-. split; [reflexivity|exact Hbound].
  - vm_compute in E. discriminate.
Defined.

(** ** Configuration from the environment *)

(** X10. A variable that the environment sets to the empty string is not
    filled from the [.env] file and gives the fallback, as if it were in
    neither of them; a variable that the environment does not set takes
    the value the [.env] file has for it. *)
Theorem empty_variable_hides_dotenv
    (file env : ProcessEnv) (name : string) :
  connect (dotenv.config file (<[name := ""]> env))
    = connect (dotenv.config (delete name file) (delete name env)) /\
  (env !! name = None ->
   dotenv.config file env !! name = file !! name).
Proof.
  unfold dotenv.config. split.
  - assert (forall key fallback,
               env_or (<[name := ""]> env ∪ file) key fallback
               = env_or (delete name env ∪ delete name file) key fallback)
      as Hkey.
    { intros key fallback. unfold env_or. rewrite !lookup_union.
      destruct (decide (name = key)) as [->|Hne].
      - rewrite lookup_insert_eq, !lookup_delete_eq.
        destruct (file !! key); reflexivity.
      - by rewrite lookup_insert_ne, !lookup_delete_ne. }
    unfold connect, PROVIDER_WS, PRIVATE_KEY, CONTRACT_ADDRESS.
    by rewrite !Hkey.
  - intros Hunset. rewrite lookup_union, Hunset.
    by destruct (file !! name).
Qed.

Lemma empty_variable_hides_dotenv_witness :
  endpoint (connect (dotenv.config {[ "PROVIDER_WS" := "wss://node" ]}
                       {[ "PROVIDER_WS" := "" ]}))
    = "wss://your.websocket.provider" /\
  dotenv.config {[ "PROVIDER_WS" := "wss://node" ]} ∅ !! "PROVIDER_WS"
    = Some "wss://node".
Proof.
  split.
  - rewrite <- (insert_empty (M := gmap string) "PROVIDER_WS" "").
    rewrite (proj1 (empty_variable_hides_dotenv
                      {[ "PROVIDER_WS" := "wss://node" ]} ∅ "PROVIDER_WS")).
    reflexivity.
  - etransitivity.
    + apply (proj2 (empty_variable_hides_dotenv
                      {[ "PROVIDER_WS" := "wss://node" ]} ∅ "PROVIDER_WS")).
      vm_compute. reflexivity.
    + vm_compute. reflexivity.
Defined.

(** ** Event listeners *)

(** X11. A listener throws only in one case: the [AuctionStarted] listener,
    when the start time or the duration of the event does not convert to a
    number; it then throws the error of that conversion.  The five other
    listeners never throw. *)
Theorem listener_throws_only_on_conversion
    (toNumber : Z -> result Z) (n : Notification) (e : Error) :
  snd (setupEventListeners toNumber n) = Some e <->
  exists startPrice endPrice startTime duration h,
    n = AuctionStarted startPrice endPrice startTime duration h /\
    (toNumber startTime = Err e \/
     (exists seconds, toNumber startTime = Ok seconds) /\
     toNumber duration = Err e).
Proof.
  split.
  - destruct n as [sp ep st d h| | | | |]; cbn; try discriminate.
    destruct (toNumber st) as [seconds|e1] eqn:Hst; cbn.
    + destruct (toNumber d) as [d'|e2] eqn:Hd; cbn; [discriminate|].
      intros [= <-]. exists sp, ep, st, d, h. split; [done|]. right. eauto.
    + intros [= <-]. exists sp, ep, st, d, h. split; [done|]. by left.
  - intros (sp & ep & st & d & h & -> & [Hst | [[seconds Hst] Hd]]); cbn.
    + by rewrite Hst.
    + by rewrite Hst, Hd.
Qed.

Lemma listener_throws_only_on_conversion_witness :
  snd (setupEventListeners toNumber53
         (AuctionStarted 100 10 (2 ^ 53) 600 "0xabc"))
  = Some (MkError "overflow").
Proof.
  apply (listener_throws_only_on_conversion toNumber53).
  exists 100, 10, (2 ^ 53), 600, "0xabc". split; [reflexivity|].
  left. reflexivity.
Defined.

(** X12. A listener prints the transaction hash of its event exactly when
    it does not throw: an [AuctionStarted] notification whose time or
    duration does not convert is reported without its hash. *)
Theorem listener_shows_hash_iff_completes
    (toNumber : Z -> result Z) (n : Notification) :
  (exists l,
      In l (fst (setupEventListeners toNumber n)) /\
      shows_hash (transactionHash_of n) l) <->
  snd (setupEventListeners toNumber n) = None.
Proof.
  unfold shows_hash. split.
  - destruct n as [sp ep st d h| | | | |]; cbn; try done.
    destruct (toNumber st) as [seconds|e1]; cbn.
    + destruct (toNumber d) as [d'|e2]; cbn; [done|].
      intros (l & Hin & label & -> & _).
      members_eq Hin ltac:(fun E => discriminate E).
    + intros (l & Hin & label & -> & _).
      members_eq Hin ltac:(fun E => discriminate E).
  - destruct n as [sp ep st d h| | | | |]; cbn.
    1: destruct (toNumber st) as [seconds|e1]; cbn;
       [destruct (toNumber d) as [d'|e2]; cbn|]; try discriminate.
    all: intros _; eexists; split;
      [ | eexists; split; [reflexivity|] ].
    all: try in_list.
    all: reflexivity.
Qed.

Lemma listener_shows_hash_iff_completes_witness :
  snd (setupEventListeners toNumber53 (BidPlaced "0xb1d" 42 7 "0xabc"))
  = None.
Proof.
  apply (listener_shows_hash_iff_completes toNumber53
           (BidPlaced "0xb1d" 42 7 "0xabc")).
  exists (Field "  Tx Hash:    " (Text "0xabc") "").
  split; [in_list|]. exists "  Tx Hash:    ". split; reflexivity.
Defined.

(** ** Retrying *)

(** X13. The first command of a cycle is decided by its reads alone: two
    cycles whose reads agree on [isActive], the winner, its token,
    [proofSubmitted] and [claimed] start with the same command, whatever
    became of the commands of either.  So a cycle that failed is retried
    with the same command as long as the state read is the same. *)
Theorem same_reads_same_first_command
    {W1 W2} (h1 : Handler W1) (h2 : Handler W2) (w1 : W1) (w2 : W2) :
  same_reads h1 h2 w1 w2 ->
  head (dispatched (trace (run h1 checkAuctionStatus w1)))
  = head (dispatched (trace (run h2 checkAuctionStatus w2))).
Proof.
  unfold same_reads, checkAuctionStatus. cbn.
  destruct (h1 getAuctionState w1) as [[s1|e1] u1],
           (h2 getAuctionState w2) as [[s2|e2] u2]; cbn;
    intros (Hs & Hw & Ha); try contradiction; [|reflexivity].
  rewrite <- Hs. destruct (isActive s1); cbn; [reflexivity|].
  destruct (h1 getWinnerInfo u1) as [[i1|e1] v1] eqn:E1,
           (h2 getWinnerInfo u2) as [[i2|e2] v2] eqn:E2;
    cbn in Hw, Ha |- *; try contradiction; [|reflexivity].
  destruct Hw as [Hwin Htok]. rewrite <- Hwin, <- Htok.
  destruct (winner i1 =? ethers.AddressZero)%string; cbn.
  - reflexivity.
  - destruct (h1 getAdminState v1) as [[a1|e1] x1] eqn:E3,
             (h2 getAdminState v2) as [[a2|e2] x2] eqn:E4;
      cbn in Ha |- *; try contradiction; [|reflexivity].
    destruct Ha as [Hp Hc]. rewrite <- Hp, <- Hc.
    destruct (proofSubmitted a1), (claimed a1); reflexivity.
Qed.

Lemma same_reads_same_first_command_witness :
  head (dispatched (trace (run mock checkAuctionStatus (won true false 1))))
  = head (dispatched (trace (run mock checkAuctionStatus (won true false 0)))).
Proof.
  apply (same_reads_same_first_command mock mock
           (won true false 1) (won true false 0)).
  repeat split.
Defined.

(** ** What the process sends, however its invocations overlap *)

Lemma checkAuctionStatus_usual : only_issues usual checkAuctionStatus.
Proof.
  unfold checkAuctionStatus. cbn.
  repeat match goal with
         | |- _ /\ _ => split
         | |- forall r, _ => intros [?|?]; cbn
         | |- context [if ?b then _ else _] => destruct b; cbn
         | |- True => exact I
         | |- _ = _ => reflexivity
         end.
Qed.

Lemma advance_only_issues (P : Call -> Prop) (q : async unit) :
  only_issues P q ->
  Forall P (issued_at (snd (advance q))) /\
  match snd (advance q) with
  | Pending s => goes_on_with P s
  | _ => True
  end.
Proof.
  induction q as [a|e|l q IH|c q IH]; cbn; auto.
  intros [Hc Hk]. split; [by repeat constructor|done].
Qed.

Section Sends.

Context {World : Type} (handle : Handler World) (P : Call -> Prop).

Lemma step_sends_only (l : Stimulus) (p p' : Process World) :
  only_issues P checkAuctionStatus ->
  sends_only P p -> step handle l p = Some p' -> sends_only P p'.
Proof.
  intros Hbody [Hsent Hsusp]. unfold step, sends_only, suspended in *.
  destruct (exitCode p); [done|].
  destruct l as [| |i].
  - destruct (timer p); [|done].
    pose proof (advance_only_issues P _ Hbody) as [Hnow Hnext].
    destruct (advance checkAuctionStatus) as [out [|e|s]];
      cbn in Hnow, Hnext; intros [= <-]; cbn; rewrite ?app_nil_r;
      try done.
    split; [by apply Forall_app|].
    rewrite app_assoc. apply Forall_app. split; [done|]. by constructor.
  - destruct (awaited p) as [[c k]|]; [|done]. cbn in Hsusp.
    apply Forall_cons in Hsusp as [Hk Hin]. cbn.
    pose proof (advance_only_issues P _ (Hk (fst (handle c (chain p)))))
      as [Hnow Hnext].
    destruct (advance (k (handle c (chain p)).1)) as [out [|e|s']];
      cbn in Hnow, Hnext; intros [= <-]; cbn; try done.
    split; [by apply Forall_app|]. by constructor.
  - destruct (inflight p !! i) as [[c k]|] eqn:Hi; [|done].
    apply Forall_app in Hsusp as [Haw Hin].
    pose proof (Forall_lookup_1 _ _ _ _ Hin Hi) as Hk. cbn in Hk |- *.
    pose proof (advance_only_issues P _ (Hk (fst (handle c (chain p)))))
      as [Hnow Hnext].
    pose proof (Forall_take _ i _ Hin) as Htake.
    pose proof (Forall_drop _ (S i) _ Hin) as Hdrop.
    destruct (advance (k (handle c (chain p)).1)) as [out [|e|s']];
      cbn in Hnow, Hnext; intros [= <-]; cbn.
    + split; [done|]. apply Forall_app. split; [done|]. by apply Forall_app.
    + split; [done|]. apply Forall_app. split; [done|]. by apply Forall_app.
    + split; [by apply Forall_app|].
      apply Forall_app. split; [done|]. apply Forall_app. split; [done|].
      by constructor.
Qed.

Lemma main_sends_only (env : ProcessEnv) (w : World) :
  only_issues P checkAuctionStatus -> sends_only P (main env w).
Proof.
  intros Hbody. unfold main, sends_only, suspended.
  pose proof (advance_only_issues P _ Hbody) as [Hnow Hnext].
  destruct (advance checkAuctionStatus) as [out [|e|s]];
    cbn in Hnow, Hnext |- *; try done.
  split; [done|]. by constructor.
Qed.

Lemma exec_sends_only (ls : list Stimulus) (p p' : Process World) :
  only_issues P checkAuctionStatus ->
  sends_only P p -> exec handle ls p = Some p' -> sends_only P p'.
Proof.
  intros Hbody. revert p. induction ls as [|l ls IH]; cbn; intros p Hp.
  - by intros [= <-].
  - destruct (step handle l p) as [p1|] eqn:Hstep; [|done].
    apply IH. eapply step_sends_only; eauto.
Qed.

End Sends.

(** X14. However the timer's invocations overlap and whatever the external
    system answers, every [startAuction] the process has issued carries the
    default prices (100 and 10 in 18-decimal units) and every
    [submitProof] the zero proof. *)
Theorem process_sends_only_defaults
    {World} (handle : Handler World) (env : ProcessEnv) (w : World)
    (ls : list Stimulus) (p : Process World) :
  exec handle ls (main env w) = Some p ->
  (forall s e,
      In (startAuction s e) (issued p) ->
      s = 100 * 10 ^ 18 /\ e = 10 * 10 ^ 18) /\
  (forall tokenId h,
      In (submitProof tokenId h) (issued p) ->
      ethers.arrayify h = Some (replicate 32 0)).
Proof.
  intros Hexec.
  destruct (exec_sends_only handle usual ls _ p checkAuctionStatus_usual
              (main_sends_only usual env w checkAuctionStatus_usual) Hexec)
    as [Hsent _].
  rewrite Forall_forall in Hsent. split.
  - intros s e Hin. apply list_elem_of_In, Hsent in Hin. exact Hin.
  - intros tokenId h Hin. apply list_elem_of_In, Hsent in Hin.
    cbn in Hin. subst h. apply zeroProof_bytes.
Qed.

Lemma process_sends_only_defaults_witness :
  NEW_AUCTION_START_PRICE = 100 * 10 ^ 18 /\
  NEW_AUCTION_END_PRICE = 10 * 10 ^ 18.
Proof.
  destruct (exec mock (replicate 6 SettleMain) (main ∅ (no_bids 0)))
    as [p|] eqn:E.
  - pose proof (process_sends_only_defaults mock ∅ (no_bids 0) _ p E)
      as [H _].
    apply H. vm_compute in E. injection E as <-.
    vm_compute. do 4 right. left. reflexivity.
  - vm_compute in E. discriminate.
Defined.
